(** * The TODO list of gemini-cli-enhanced

    A shallow embedding of [packages/core/src/tools/todo.ts]: the
    [TodoManager] store (an ordered list of steps and an id counter) and the
    [TodoTool.execute] entry point that adapts it to tagged requests.

    Conventions of the embedding.
    - [nextId] is a JavaScript number that only ever holds a positive
      integer; it is modelled as [N].  Integers are exact in a JavaScript
      number below 2^53 and arrays hold fewer than 2^32 elements; the model
      has neither bound.
    - Strings are byte strings (the UTF-8 encoding of the source text);
      only equality and concatenation are used, which agree with the
      UTF-16 strings of the run time.
    - [TodoStatus] is a string enum, and [execute] casts the request's
      status to it without a check, so a status is modelled as a string.
    - The fields of a request have the types of [TodoToolParams]; a field
      that is absent is [None].  Module [Raw] adds the requests whose
      [steps] array holds [null] or [undefined], on which the [try] block
      of [execute] throws.
    - [TodoManager.getInstance()] always answers the one instance of the
      class; its state is passed to each operation and returned by it.
    - The value-level model below keeps the steps themselves in the list.
      Module [Heap] models the same class with object references, for the
      properties that depend on sharing, and is related to the value-level
      model by an abstraction function. *)

From Stdlib Require Import NArith ZArith String Ascii List DecimalString DecimalN.
From stdpp Require Import base list strings.

(** ** JavaScript primitives used by the source *)

Module JS.

(** [Number.prototype.toString] on a non-negative integer: its decimal
    numeral, without leading zeros. *)
Definition toString (n : N) : string :=
  NilZero.string_of_uint (N.to_uint n).

(** [Array.prototype.findIndex]: the index of the first element that
    satisfies [p], or [-1]. *)
Definition findIndex {A} (p : A → bool) (l : list A) : Z :=
  match list_find (λ x, p x = true) l with
  | Some (i, _) => Z.of_nat i
  | None => (-1)%Z
  end.

(** [Array.prototype.find]: the first element that satisfies [p], with its
    position (the position stands for the identity of the object found). *)
Definition find {A} (p : A → bool) (l : list A) : option (nat * A) :=
  list_find (λ x, p x = true) l.

(** [Array.prototype.splice(start, deleteCount)] without inserted items. *)
Definition splice {A} (start deleteCount : nat) (l : list A) : list A :=
  take start l ++ drop (start + deleteCount) l.

(** [Array.prototype.push] of one element. *)
Definition push {A} (l : list A) (x : A) : list A := l ++ [x].

(** [Array.prototype.map], whose callback also receives the index. *)
Definition map {A B} (f : A → nat → B) (l : list A) : list B :=
  imap (λ i x, f x i) l.

(** [Array.prototype.join]. *)
Definition join (sep : string) (l : list string) : string :=
  String.concat sep l.

(** Truthiness of an optional string: [undefined] and the empty string are
    falsy. *)
Definition truthy (o : option string) : bool :=
  match o with
  | Some s => negb (String.eqb s "")
  | None => false
  end.

End JS.

(** ** Data model *)

Module TodoStatus.

Definition t := string.
Definition NOT_MADE : t := "not_made".
Definition IN_PROGRESS : t := "in_progress".
Definition MADE : t := "made".

End TodoStatus.

Module TodoStep.

Record t := mk {
  id : string;
  title : string;
  description : string;
  status : TodoStatus.t
}.

(** [step.status = status] on a step held by value. *)
Definition set_status (st : TodoStatus.t) (s : t) : t :=
  mk (id s) (title s) (description s) st.

End TodoStep.

Abbreviation TodoStep := TodoStep.t.

(** An element of the array given to [initializeTodo]. *)
Module StepInit.

Record t := mk { title : string; description : string }.

End StepInit.

Abbreviation StepInit := StepInit.t.

(** ** The store: class [TodoManager] *)

Module TodoManager.

Record t := mk {
  steps : list TodoStep;
  nextId : N
}.

(** The state of a new instance: [steps = []], [nextId = 1]. *)
Definition new : t := mk [] 1.

Definition initializeTodo (entries : list StepInit) (this : t) : t :=
  let steps' :=
    JS.map (λ step index,
      TodoStep.mk (JS.toString (N.of_nat index + 1))
                  (StepInit.title step)
                  (StepInit.description step)
                  TodoStatus.NOT_MADE) entries in
  mk steps' (N.of_nat (length steps') + 1).

Definition addStep (title description : string) (this : t) : string * t :=
  let id := JS.toString (nextId this) in
  (id,
   mk (JS.push (steps this)
         (TodoStep.mk id title description TodoStatus.NOT_MADE))
      (nextId this + 1)).

Definition deleteStep (id : string) (this : t) : bool * t :=
  let index :=
    JS.findIndex (λ step, String.eqb (TodoStep.id step) id) (steps this) in
  if negb (index =? -1)%Z
  then (true, mk (JS.splice (Z.to_nat index) 1 (steps this)) (nextId this))
  else (false, this).

Definition updateStatus (id : string) (status : TodoStatus.t) (this : t)
  : bool * t :=
  match JS.find (λ step, String.eqb (TodoStep.id step) id) (steps this) with
  | Some (i, step) =>
      (true,
       mk (<[i := TodoStep.set_status status step]> (steps this))
          (nextId this))
  | None => (false, this)
  end.

(** [[...this.steps]]: at the level of values the copy is the list. *)
Definition getSteps (this : t) : list TodoStep := steps this.

(** The glyphs, as the bytes of the string literals in the source file. *)
Definition bytes (codes : list nat) : string :=
  string_of_list_ascii (ascii_of_nat <$> codes).

Definition ICON_NOT_MADE : string :=
  bytes [195; 162; 194; 173; 226; 128; 162].
Definition ICON_IN_PROGRESS : string :=
  bytes [195; 176; 197; 184; 226; 128; 157; 226; 128; 158].
Definition ICON_MADE : string :=
  bytes [195; 162; 197; 147; 226; 128; 166].

Definition getStatusIcon (status : TodoStatus.t) : string :=
  if String.eqb status TodoStatus.NOT_MADE then ICON_NOT_MADE
  else if String.eqb status TodoStatus.IN_PROGRESS then ICON_IN_PROGRESS
  else if String.eqb status TodoStatus.MADE then ICON_MADE
  else ICON_NOT_MADE.

(** The template literal [`${icon} ${step.title}`]. *)
Definition displayLine (step : TodoStep) : string :=
  let icon := getStatusIcon (TodoStep.status step) in
  icon +:+ " " +:+ TodoStep.title step.

Definition getStepsForDisplay (this : t) : string :=
  if (length (steps this) =? 0)%nat then ""
  else JS.join (String (ascii_of_nat 10) "")
         (JS.map (λ step _, displayLine step) (steps this)).

Definition clearTodo (this : t) : t := mk [] 1.

End TodoManager.

Abbreviation TodoManager := TodoManager.t.

(** ** The tool: class [TodoTool] *)

(** The request, [TodoToolParams].  [action] is the tag as received: the
    [switch] of [execute] has a [default] clause for any other string. *)
Module Params.

(** The [steps] field as the guard of the [initialize] action sees it:
    falsy (absent), a value that [Array.isArray] rejects, or an array. *)
Inductive StepsField :=
  | StepsAbsent
  | StepsNotArray
  | StepsArray (a : list StepInit).

Record t := mk {
  action : string;
  steps : StepsField;
  step_id : option string;
  title : option string;
  description : option string;
  status : option string
}.

End Params.

(** The object that [execute] gives to [JSON.stringify] to build
    [llmContent]: [{success, message?, error?, steps?, step_id?, display?}].
    [JSON.stringify] reads the steps at once, so the payload holds their
    values at that moment. *)
Module Payload.

Record t := mk {
  success : bool;
  message : option string;
  error : option string;
  steps : option (list TodoStep);
  step_id : option string;
  display : option string
}.

(** [{ success: false, error }] *)
Definition failure (error : string) : t :=
  mk false None (Some error) None None None.

(** [{ success: true, message }] *)
Definition ok (message : string) : t :=
  mk true (Some message) None None None None.

End Payload.

Module ToolResult.

Record t := mk {
  llmContent : Payload.t;
  returnDisplay : string
}.

End ToolResult.

Abbreviation ToolResult := ToolResult.t.

(** Outcome of a block of statements: it returns a value or throws. *)
Inductive completion (A : Type) :=
  | Return (a : A)
  | Throw (message : string).

Arguments Return {A} a.
Arguments Throw {A} message.

Module TodoTool.

(** [`Error: ${e}`] with the failure payload: the shape of every failure. *)
Definition failed (e : string) : ToolResult :=
  ToolResult.mk (Payload.failure e) ("Error: " +:+ e).

(** The [switch] inside the [try] block of [execute], on the single
    [TodoManager] instance.  On a request of type [TodoToolParams] no
    statement of the block throws. *)
Definition execute_try (params : Params.t) (todoManager : TodoManager)
  : completion ToolResult * TodoManager :=
  let action := Params.action params in
  if String.eqb action "initialize" then
    match Params.steps params with
    | Params.StepsArray steps =>
        let todoManager := TodoManager.initializeTodo steps todoManager in
        let n := JS.toString (N.of_nat (length steps)) in
        (Return (ToolResult.mk
           (Payload.mk true
              (Some ("Initialized TODO list with " +:+ n +:+ " steps"))
              None (Some (TodoManager.getSteps todoManager)) None None)
           ("TODO list initialized with " +:+ n +:+ " steps")),
         todoManager)
    | _ =>
        (Return (failed "Steps array required for initialize action"),
         todoManager)
    end
  else if String.eqb action "add" then
    if negb (JS.truthy (Params.title params))
       || negb (JS.truthy (Params.description params))
    then
      (Return (failed "Title and description required for add action"),
       todoManager)
    else
      let title := default "" (Params.title params) in
      let description := default "" (Params.description params) in
      let '(newId, todoManager) :=
        TodoManager.addStep title description todoManager in
      (Return (ToolResult.mk
         (Payload.mk true (Some ("Added step: " +:+ title))
            None None (Some newId) None)
         ("Added step: " +:+ title)),
       todoManager)
  else if String.eqb action "delete" then
    if negb (JS.truthy (Params.step_id params)) then
      (Return (failed "Step ID required for delete action"), todoManager)
    else
      let step_id := default "" (Params.step_id params) in
      let '(deleted, todoManager) :=
        TodoManager.deleteStep step_id todoManager in
      if deleted then
        (Return (ToolResult.mk
           (Payload.ok ("Deleted step " +:+ step_id))
           ("Deleted step " +:+ step_id)),
         todoManager)
      else
        (Return (failed ("Step " +:+ step_id +:+ " not found")), todoManager)
  else if String.eqb action "update_status" then
    if negb (JS.truthy (Params.step_id params))
       || negb (JS.truthy (Params.status params))
    then
      (Return
         (failed "Step ID and status required for update_status action"),
       todoManager)
    else
      let step_id := default "" (Params.step_id params) in
      let statusEnum : TodoStatus.t := default "" (Params.status params) in
      let '(updated, todoManager) :=
        TodoManager.updateStatus step_id statusEnum todoManager in
      if updated then
        let m :=
          "Updated step " +:+ step_id +:+ " status to " +:+ statusEnum in
        (Return (ToolResult.mk (Payload.ok m) m), todoManager)
      else
        (Return (failed ("Step " +:+ step_id +:+ " not found")), todoManager)
  else if String.eqb action "get_steps" then
    let steps := TodoManager.getSteps todoManager in
    (Return (ToolResult.mk
       (Payload.mk true None None (Some steps) None
          (Some (TodoManager.getStepsForDisplay todoManager)))
       (if (0 <? length steps)%nat
        then TodoManager.getStepsForDisplay todoManager
        else "No TODO steps")),
     todoManager)
  else if String.eqb action "clear" then
    let todoManager := TodoManager.clearTodo todoManager in
    (Return (ToolResult.mk
       (Payload.ok "TODO list cleared") "TODO list cleared"),
     todoManager)
  else
    (Return (failed ("Unknown action: " +:+ action)), todoManager).

(** [execute]: the [try] block, and the [catch] clause that turns a thrown
    error into the failure response.  The method is [async] without any
    [await]: the promise it returns is fulfilled with this result. *)
Definition execute (params : Params.t) (todoManager : TodoManager)
  : ToolResult * TodoManager :=
  match execute_try params todoManager with
  | (Return result, todoManager) => (result, todoManager)
  | (Throw errorMessage, todoManager) => (failed errorMessage, todoManager)
  end.

End TodoTool.

(** ** The same class with object references

    Steps are objects and arrays are objects; a variable or an array slot
    holds a reference.  [this.steps] is a reference to an array of
    references to step objects.  Allocation appends to the heap and
    nothing is ever freed. *)

Module Heap.

(** A reference is an address in the heap. *)
Abbreviation ref := nat.

Record t := mk {
  objects : list TodoStep;
  arrays : list (list ref);
  steps : ref;
  nextId : N
}.

(** A new instance: the field initialiser [steps = []] allocates an array. *)
Definition new : t := mk [] [[]] 0 1.

(** The slots of array [a]. *)
Definition elements (a : ref) (w : t) : list ref :=
  default [] (arrays w !! a).

Definition deref (w : t) (r : ref) : option TodoStep := objects w !! r.

(** What a reader of array [a] sees: the steps its slots refer to. *)
Definition contents (a : ref) (w : t) : list TodoStep :=
  omap (deref w) (elements a w).

(** The callback [step => step.id === id] on a reference. *)
Definition has_id (id : string) (w : t) (r : ref) : bool :=
  match deref w r with
  | Some step => String.eqb (TodoStep.id step) id
  | None => false
  end.

Definition initializeTodo (entries : list StepInit) (this : t) : t :=
  let fresh :=
    JS.map (λ step index,
      TodoStep.mk (JS.toString (N.of_nat index + 1))
                  (StepInit.title step)
                  (StepInit.description step)
                  TodoStatus.NOT_MADE) entries in
  let refs := seq (length (objects this)) (length fresh) in
  mk (objects this ++ fresh)
     (arrays this ++ [refs])
     (length (arrays this))
     (N.of_nat (length refs) + 1).

Definition addStep (title description : string) (this : t) : string * t :=
  let id := JS.toString (nextId this) in
  let r := length (objects this) in
  (id,
   mk (objects this ++ [TodoStep.mk id title description TodoStatus.NOT_MADE])
      (alter (λ a, JS.push a r) (steps this) (arrays this))
      (steps this)
      (nextId this + 1)).

Definition deleteStep (id : string) (this : t) : bool * t :=
  let index := JS.findIndex (has_id id this) (elements (steps this) this) in
  if negb (index =? -1)%Z
  then (true,
        mk (objects this)
           (alter (JS.splice (Z.to_nat index) 1) (steps this) (arrays this))
           (steps this) (nextId this))
  else (false, this).

Definition updateStatus (id : string) (status : TodoStatus.t) (this : t)
  : bool * t :=
  match JS.find (has_id id this) (elements (steps this) this) with
  | Some (_, step) =>
      (true,
       mk (alter (TodoStep.set_status status) step (objects this))
          (arrays this) (steps this) (nextId this))
  | None => (false, this)
  end.

(** [[...this.steps]]: a new array with the same slots. *)
Definition getSteps (this : t) : ref * t :=
  (length (arrays this),
   mk (objects this)
      (arrays this ++ [elements (steps this) this])
      (steps this) (nextId this)).

Definition clearTodo (this : t) : t :=
  mk (objects this) (arrays this ++ [[]]) (length (arrays this)) 1.

(** What a caller can do to an array [a] it was given: change the array
    itself (assign a slot, push, pop, splice, sort, set the length: the
    slots become [elems]), or assign fields of the object in slot [i]
    (the object becomes [o]). *)
Inductive Mutation :=
  | SetElements (elems : list ref)
  | SetObject (i : nat) (o : TodoStep).

Definition mutate (a : ref) (mu : Mutation) (w : t) : t :=
  match mu with
  | SetElements elems =>
      mk (objects w) (<[a := elems]> (arrays w)) (steps w) (nextId w)
  | SetObject i o =>
      match elements a w !! i with
      | Some r => mk (<[r := o]> (objects w)) (arrays w) (steps w) (nextId w)
      | None => w
      end
  end.

(** The value-level store that a heap state stands for. *)
Definition abs (w : t) : TodoManager :=
  TodoManager.mk (contents (steps w) w) (nextId w).

(** Well-formed states: [this.steps] is allocated, its slots are distinct
    and refer to allocated objects. *)
Definition wf (w : t) : Prop :=
  steps w < length (arrays w)
  ∧ NoDup (elements (steps w) w)
  ∧ Forall (λ r, r < length (objects w)) (elements (steps w) w).

#[global] Instance wf_dec (w : t) : Decision (wf w).
Proof. unfold wf. apply _. Defined.

End Heap.

(** ** Vocabulary of the properties *)

(** The mutating operations of the store. *)
Inductive Op :=
  | OpInitialize (entries : list StepInit)
  | OpAdd (title description : string)
  | OpDelete (id : string)
  | OpUpdateStatus (id : string) (status : TodoStatus.t)
  | OpClear.

Definition apply (o : Op) (m : TodoManager) : TodoManager :=
  match o with
  | OpInitialize entries => TodoManager.initializeTodo entries m
  | OpAdd title description => (TodoManager.addStep title description m).2
  | OpDelete id => (TodoManager.deleteStep id m).2
  | OpUpdateStatus id status => (TodoManager.updateStatus id status m).2
  | OpClear => TodoManager.clearTodo m
  end.

Definition run (ops : list Op) (m : TodoManager) : TodoManager :=
  foldl (λ m o, apply o m) m ops.

(** The same operations on the heap model. *)
Definition happly (o : Op) (w : Heap.t) : Heap.t :=
  match o with
  | OpInitialize entries => Heap.initializeTodo entries w
  | OpAdd title description => (Heap.addStep title description w).2
  | OpDelete id => (Heap.deleteStep id w).2
  | OpUpdateStatus id status => (Heap.updateStatus id status w).2
  | OpClear => Heap.clearTodo w
  end.

Definition hrun (ops : list Op) (w : Heap.t) : Heap.t :=
  foldl (λ w o, happly o w) w ops.

(** The ids that one operation assigns to new records. *)
Definition assigned (o : Op) (m : TodoManager) : list string :=
  match o with
  | OpInitialize entries =>
      TodoStep.id <$> TodoManager.steps (TodoManager.initializeTodo entries m)
  | OpAdd title description => [(TodoManager.addStep title description m).1]
  | _ => []
  end.

(** The ids assigned, in order, while [ops] runs from [m]. *)
Fixpoint assigned_ids (ops : list Op) (m : TodoManager) : list string :=
  match ops with
  | [] => []
  | o :: ops' => assigned o m ++ assigned_ids ops' (apply o m)
  end.

(** The values of the counter while [ops] runs from [m], the first being
    that of [m]. *)
Fixpoint counters (ops : list Op) (m : TodoManager) : list N :=
  TodoManager.nextId m ::
  match ops with
  | [] => []
  | o :: ops' => counters ops' (apply o m)
  end.

(** [initialize] and [clear] assign the counter; the others do not. *)
Definition resets (o : Op) : bool :=
  match o with
  | OpInitialize _ | OpClear => true
  | _ => false
  end.

(** The ids of the records held. *)
Definition held_ids (m : TodoManager) : list string :=
  TodoStep.id <$> TodoManager.steps m.

(** Consecutive [addStep] calls; the ids returned, in order. *)
Fixpoint addSteps (l : list (string * string)) (m : TodoManager)
  : list string * TodoManager :=
  match l with
  | [] => ([], m)
  | (title, description) :: l' =>
      let '(id, m1) := TodoManager.addStep title description m in
      let '(ids, m2) := addSteps l' m1 in
      (id :: ids, m2)
  end.

(** The number that an id is the decimal numeral of. *)
Definition id_value (id : string) : option N :=
  N.of_uint <$> NilZero.uint_of_string id.

(** Strictly increasing lists of numbers. *)
Fixpoint increasing (l : list N) : bool :=
  match l with
  | x :: (y :: _) as l' => (x <? y)%N && increasing l'
  | _ => true
  end.

(** Lists of numbers that never decrease. *)
Fixpoint nondecreasing (l : list N) : bool :=
  match l with
  | x :: (y :: _) as l' => (x <=? y)%N && nondecreasing l'
  | _ => true
  end.

(** The line feed, and the lines of a text: the pieces between line
    feeds; the empty text has no line. *)
Definition LF : ascii := ascii_of_nat 10.

Fixpoint pieces (s : string) : list string :=
  match s with
  | EmptyString => [""]
  | String c s' =>
      if Ascii.eqb c LF then "" :: pieces s'
      else match pieces s' with
           | p :: ps => String c p :: ps
           | [] => [String c ""]
           end
  end.

Definition lines (s : string) : list string :=
  if String.eqb s "" then [] else pieces s.

(** Whether a text has a line feed. *)
Fixpoint has_LF (s : string) : bool :=
  match s with
  | EmptyString => false
  | String c s' => Ascii.eqb c LF || has_LF s'
  end.

(** The two entries of the scenarios. *)
Definition AB : list StepInit :=
  [StepInit.mk "A" "a"; StepInit.mk "B" "b"].

(** The invariant of the store: the ids held are pairwise distinct, the
    counter is at least 1, and each id held is the numeral of a number
    from 1 up to, and excluding, the counter. *)
Definition Inv (m : TodoManager) : Prop :=
  NoDup (held_ids m)
  ∧ (1 ≤ TodoManager.nextId m)%N
  ∧ Forall (λ id, ∃ k, id = JS.toString k ∧ (1 ≤ k < TodoManager.nextId m)%N)
      (held_ids m).

(** ** The declaration of the tool: [todoToolSchemaData] *)

Module TodoToolSchema.

Definition name : string := "todo_tool".

(** [parameters.properties.action.enum] *)
Definition action_enum : list string :=
  ["initialize"; "add"; "delete"; "update_status"; "get_steps"; "clear"].

(** [parameters.properties.status.enum] *)
Definition status_enum : list string :=
  ["not_made"; "in_progress"; "made"].

(** [parameters.required] *)
Definition required : list string := ["action"].

End TodoToolSchema.

(** ** Requests in sequence *)

(** The tool serving a sequence of requests on the one store; the
    responses, in order. *)
Fixpoint serve (requests : list Params.t) (m : TodoManager)
  : list ToolResult * TodoManager :=
  match requests with
  | [] => ([], m)
  | p :: requests' =>
      let '(r, m1) := TodoTool.execute p m in
      let '(rs, m2) := serve requests' m1 in
      (r :: rs, m2)
  end.

(** ** The polling hook: [useTodoList]
    ([packages/cli-enhanced/src/ui/hooks/useTodoList.ts])

    The hook reads the response of the tool's [get_steps] action with
    [JSON.parse]; the parsed object has the fields of the payload that
    [execute] gave to [JSON.stringify], and is modelled as that payload. *)

Module TodoItem.

Record t := mk {
  id : string;
  description : string;
  status : string
}.

End TodoItem.

Abbreviation TodoItem := TodoItem.t.

Module UseTodoList.

(** [a || b] on strings: [a] unless it is empty, else [b]. *)
Definition or (a b : string) : string :=
  if String.eqb a "" then b else a.

(** The callback given to [todoData.steps.map]. *)
Definition formatTodo (step : TodoStep) (index : nat) : TodoItem :=
  TodoItem.mk
    (or (TodoStep.id step) ("todo-" +:+ JS.toString (N.of_nat index)))
    (or (or (TodoStep.description step) (TodoStep.title step))
        "Untitled task")
    (if String.eqb (TodoStep.status step) "made" then "made"
     else if String.eqb (TodoStep.status step) "in_progress"
          then "in_progress"
          else "not_made").

(** The state of the hook: the two [useState] cells. *)
Record State := mkState {
  todos : list TodoItem;
  isLoading : bool
}.

(** [useState([])] and [useState(false)]. *)
Definition initial : State := mkState [] false.

(** What [config.getToolRegistry()] and [getTool('todo_tool')] give:
    an error is thrown, no tool has that name, or the tool is there. *)
Inductive Registry :=
  | RegistryThrows
  | NoTodoTool
  | HasTodoTool.

(** One run of [fetchTodos] to its end: the state of the hook after it
    ([finally] has set [isLoading] to false) and the store. *)
Definition fetchTodos (registry : Registry) (st : State) (m : TodoManager)
  : State * TodoManager :=
  match registry with
  | RegistryThrows => (mkState [] false, m)
  | NoTodoTool => (mkState (todos st) false, m)
  | HasTodoTool =>
      let '(result, m) :=
        TodoTool.execute
          (Params.mk "get_steps" Params.StepsAbsent None None None None) m in
      let todoData := ToolResult.llmContent result in
      match Payload.success todoData, Payload.steps todoData with
      | true, Some steps => (mkState (JS.map formatTodo steps) false, m)
      | _, _ => (mkState [] false, m)
      end
  end.

End UseTodoList.

(** ** The display component: [TodoListDisplay]
    ([packages/cli-enhanced/src/ui/components/TodoListDisplay.tsx]) *)

(** The colours of the theme, [Colors] of [../colors.js]: the component
    only names them. *)
Module Colors.

Record t := mk {
  AccentYellow : string;
  AccentBlue : string;
  AccentGreen : string;
  Comment : string;
  Foreground : string
}.

End Colors.

(** The elements that the component builds: [Box] and [Text] of ink with
    the props that the component sets ([None]: the prop is not given). *)
Module Ink.

Record BoxProps := mkBox {
  key : option (string + nat);
  flexDirection : option string;
  borderStyle : option string;
  borderColor : option string;
  paddingX : option nat;
  marginBottom : option nat;
  marginRight : option nat;
  flexGrow : option nat;
  width : option nat
}.

Record TextProps := mkText {
  bold : option bool;
  color : option string;
  strikethrough : option bool
}.

#[warnings="-register-all"]
Inductive Element :=
  | Box (props : BoxProps) (children : list Element)
  | Text (props : TextProps) (content : string).

End Ink.

Module TodoListDisplay.

Definition ICON_NOT_MADE : string := TodoManager.bytes [226; 173; 149].
Definition ICON_IN_PROGRESS : string :=
  TodoManager.bytes [240; 159; 148; 132].
Definition ICON_MADE : string := TodoManager.bytes [226; 156; 133].

(** The heading, a clipboard sign and ["TODO List"]. *)
Definition HEADING : string :=
  TodoManager.bytes [240; 159; 147; 139] +:+ " TODO List".

Definition getStatusIcon (status : string) : string :=
  if String.eqb status "not_made" then ICON_NOT_MADE
  else if String.eqb status "in_progress" then ICON_IN_PROGRESS
  else if String.eqb status "made" then ICON_MADE
  else ICON_NOT_MADE.

Definition getStatusColor (C : Colors.t) (status : string) : string :=
  if String.eqb status "not_made" then Colors.AccentYellow C
  else if String.eqb status "in_progress" then Colors.AccentBlue C
  else if String.eqb status "made" then Colors.AccentGreen C
  else Colors.AccentYellow C.

(** [todo.id || index], the key of a row. *)
Definition rowKey (todo : TodoItem) (index : nat) : string + nat :=
  if String.eqb (TodoItem.id todo) "" then inr index
  else inl (TodoItem.id todo).

(** The callback of [todos.map]; [n] is [todos.length]. *)
Definition row (C : Colors.t) (n : nat) (todo : TodoItem) (index : nat)
  : Ink.Element :=
  let made := String.eqb (TodoItem.status todo) "made" in
  Ink.Box
    (Ink.mkBox (Some (rowKey todo index)) None None None None
       (Some (if (Z.of_nat index <? Z.of_nat n - 1)%Z then 1 else 0))
       None None None)
    [Ink.Box
       (Ink.mkBox None None None None None None (Some 1) None None)
       [Ink.Text
          (Ink.mkText None (Some (getStatusColor C (TodoItem.status todo)))
             None)
          (getStatusIcon (TodoItem.status todo))];
     Ink.Box
       (Ink.mkBox None None None None None None None (Some 1) None)
       [Ink.Text
          (Ink.mkText None
             (Some (if made then Colors.Comment C else Colors.Foreground C))
             (Some made))
          (TodoItem.description todo)]].

(** The component: [None] is [null]; [width] absent is 80. *)
Definition TodoListDisplay (C : Colors.t) (todos : list TodoItem)
  (width : option nat) : option Ink.Element :=
  let width := default 80 width in
  if (length todos =? 0)%nat then None
  else
    Some (Ink.Box
      (Ink.mkBox None (Some "column") (Some "round")
         (Some (Colors.AccentBlue C)) (Some 1) (Some 1) None None
         (Some width))
      (Ink.Box
         (Ink.mkBox None None None None None (Some 1) None None None)
         [Ink.Text (Ink.mkText (Some true) (Some (Colors.AccentBlue C)) None)
            HEADING]
       :: JS.map (row C (length todos)) todos)).

(** The rows of a rendered list, and what a row shows. *)
Definition rows (e : option Ink.Element) : list Ink.Element :=
  match e with
  | Some (Ink.Box _ (_ :: rs)) => rs
  | _ => []
  end.

Definition rowKeyOf (e : Ink.Element) : option (string + nat) :=
  match e with
  | Ink.Box props _ => Ink.key props
  | Ink.Text _ _ => None
  end.

Definition rowMargin (e : Ink.Element) : option nat :=
  match e with
  | Ink.Box props _ => Ink.marginBottom props
  | Ink.Text _ _ => None
  end.

(** The glyph, the text, and whether the text is struck through. *)
Definition rowShows (e : Ink.Element) : option (string * string * bool) :=
  match e with
  | Ink.Box _ [Ink.Box _ [Ink.Text _ icon];
               Ink.Box _ [Ink.Text tp text]] =>
      Some (icon, text, default false (Ink.strikethrough tp))
  | _ => None
  end.

End TodoListDisplay.

(** ** Requests as they arrive at run time

    The declaration of the tool is not enforced when [execute] runs: the
    elements of [steps] are whatever the caller sent.  An element that is
    [null] or [undefined] makes the callback of [steps.map] in
    [initializeTodo] throw a [TypeError] at [step.title]; that is the one
    statement of the [try] block that throws on a request read from
    JSON.  The other fields are as in [Params]. *)

Module Raw.

Inductive Element :=
  | Null
  | Undefined
  | Object (step : StepInit).

Inductive StepsField :=
  | StepsAbsent
  | StepsNotArray
  | StepsArray (a : list Element).

Record Params := mk {
  action : string;
  steps : StepsField;
  step_id : option string;
  title : option string;
  description : option string;
  status : option string
}.


(** The callback of [steps.map] reads [step.title] of each element, from
    left to right: the entries read, or the message of the [TypeError]
    of the first element without properties (the wording is that of V8,
    the engine of Node). *)
Fixpoint read (a : list Element) : completion (list StepInit) :=
  match a with
  | [] => Return []
  | Null :: _ => Throw "Cannot read properties of null (reading 'title')"
  | Undefined :: _ =>
      Throw "Cannot read properties of undefined (reading 'title')"
  | Object step :: a' =>
      match read a' with
      | Return entries => Return (step :: entries)
      | Throw message => Throw message
      end
  end.

(** [initializeTodo] on such an array: when the callback throws,
    [this.steps] and [this.nextId] have not been assigned. *)
Definition initializeTodo (steps : list Element) (this : TodoManager)
  : completion unit * TodoManager :=
  match read steps with
  | Return entries => (Return tt, TodoManager.initializeTodo entries this)
  | Throw message => (Throw message, this)
  end.

(** The [try] block of [execute].  Only the [initialize] branch reads
    [steps]; the other branches are those of [TodoTool.execute_try]. *)
Definition execute_try (params : Params) (todoManager : TodoManager)
  : completion ToolResult * TodoManager :=
  if String.eqb (action params) "initialize" then
    match steps params with
    | StepsArray steps =>
        match initializeTodo steps todoManager with
        | (Return _, todoManager) =>
            let n := JS.toString (N.of_nat (length steps)) in
            (Return (ToolResult.mk
               (Payload.mk true
                  (Some ("Initialized TODO list with " +:+ n +:+ " steps"))
                  None (Some (TodoManager.getSteps todoManager)) None None)
               ("TODO list initialized with " +:+ n +:+ " steps")),
             todoManager)
        | (Throw message, todoManager) => (Throw message, todoManager)
        end
    | _ =>
        (Return (TodoTool.failed "Steps array required for initialize action"),
         todoManager)
    end
  else
    TodoTool.execute_try
      (Params.mk (action params) Params.StepsAbsent (step_id params)
         (title params) (description params) (status params))
      todoManager.

(** [execute]: the [try] block and the [catch] clause; the error caught
    is an [Error], so the message of the response is its [message]. *)
Definition execute (params : Params) (todoManager : TodoManager)
  : ToolResult * TodoManager :=
  match execute_try params todoManager with
  | (Return result, todoManager) => (result, todoManager)
  | (Throw errorMessage, todoManager) =>
      (TodoTool.failed errorMessage, todoManager)
  end.


End Raw.

(** Whether an operation is an [updateStatus]. *)
Definition is_update (o : Op) : bool :=
  match o with
  | OpUpdateStatus _ _ => true
  | _ => false
  end.

(** * Properties *)

(** ** Numerals *)

Section Numerals.

Lemma to_uint_nonnil (n : N) : N.to_uint n ≠ Decimal.Nil.
Proof.
  destruct n as [|p]; [discriminate|].
  apply DecimalPos.Unsigned.to_uint_nonnil.
Qed.

(** An id can be read back as the number it was made from. *)
Lemma id_value_toString (n : N) : id_value (JS.toString n) = Some n.
Proof.
  unfold id_value, JS.toString.
  rewrite NilZero.usu by apply to_uint_nonnil.
  simpl. by rewrite DecimalN.Unsigned.of_to.
Qed.

Lemma toString_inj (n k : N) : JS.toString n = JS.toString k → n = k.
Proof.
  intros E. apply (f_equal id_value) in E.
  rewrite !id_value_toString in E. congruence.
Qed.

Lemma toString_nonempty (n : N) : JS.toString n ≠ "".
Proof.
  intros E. apply (f_equal id_value) in E.
  rewrite id_value_toString in E. discriminate.
Qed.

Lemma truthy_Some (o : option string) :
  JS.truthy o = true ↔ ∃ s, o = Some s ∧ s ≠ "".
Proof.
  destruct o as [s|]; simpl.
  - rewrite negb_true_iff, String.eqb_neq. split.
    + intros Hs. by exists s.
    + by intros (s' & [= <-] & Hs).
  - split; [discriminate|]. by intros (s & [=] & _).
Qed.

Lemma truthy_toString (n : N) : JS.truthy (Some (JS.toString n)) = true.
Proof. apply truthy_Some. eauto using toString_nonempty. Qed.

End Numerals.

(** ** Array primitives *)

Section Arrays.

Context {A : Type}.
Implicit Types (p : A → bool) (l : list A).

Lemma splice_one (i : nat) l : JS.splice i 1 l = delete i l.
Proof.
  unfold JS.splice. rewrite delete_take_drop. by replace (i + 1) with (S i) by lia.
Qed.

Lemma findIndex_Some p l i x :
  list_find (λ y, p y = true) l = Some (i, x) →
  JS.findIndex p l = Z.of_nat i.
Proof. unfold JS.findIndex. by intros ->. Qed.

Lemma findIndex_None p l :
  list_find (λ y, p y = true) l = None → JS.findIndex p l = (-1)%Z.
Proof. unfold JS.findIndex. by intros ->. Qed.

(** [findIndex] answers [-1] exactly when no element satisfies [p]. *)
Lemma findIndex_minus_one p l :
  JS.findIndex p l = (-1)%Z ↔ Forall (λ y, p y ≠ true) l.
Proof.
  unfold JS.findIndex.
  destruct (list_find _ l) as [[i x]|] eqn:E.
  - split; [lia|]. intros HF.
    apply list_find_Some in E as (Hl & Hp & _).
    by destruct (Forall_lookup_1 _ _ _ _ HF Hl).
  - split; [intros _|done]. by apply list_find_None in E.
Qed.

End Arrays.

(** ** The store, operation by operation *)

Section Store.

Implicit Types (m : TodoManager) (id : string) (step : TodoStep).

(** The callback [step => step.id === id]. *)
Lemma id_eqb_true step id :
  String.eqb (TodoStep.id step) id = true ↔ TodoStep.id step = id.
Proof. apply String.eqb_eq. Qed.

Lemma deleteStep_found id m i step :
  list_find (λ s, String.eqb (TodoStep.id s) id = true) (TodoManager.steps m)
    = Some (i, step) →
  TodoManager.deleteStep id m
    = (true, TodoManager.mk (delete i (TodoManager.steps m))
               (TodoManager.nextId m)).
Proof.
  intros E. unfold TodoManager.deleteStep.
  rewrite (findIndex_Some _ _ _ _ E).
  replace (Z.of_nat i =? -1)%Z with false by (symmetry; apply Z.eqb_neq; lia).
  simpl. by rewrite Nat2Z.id, splice_one.
Qed.

Lemma deleteStep_not_found id m :
  list_find (λ s, String.eqb (TodoStep.id s) id = true) (TodoManager.steps m)
    = None →
  TodoManager.deleteStep id m = (false, m).
Proof.
  intros E. unfold TodoManager.deleteStep.
  by rewrite (findIndex_None _ _ E).
Qed.

Lemma held_ids_initializeTodo entries m :
  held_ids (TodoManager.initializeTodo entries m)
  = (λ i, JS.toString (N.of_nat i + 1)) <$> seq 0 (length entries).
Proof.
  unfold held_ids, TodoManager.initializeTodo, JS.map. simpl.
  rewrite fmap_imap.
  by rewrite <- (imap_seq_0 entries (λ i, JS.toString (N.of_nat i + 1))).
Qed.

Lemma nextId_initializeTodo entries m :
  TodoManager.nextId (TodoManager.initializeTodo entries m)
  = (N.of_nat (length entries) + 1)%N.
Proof.
  unfold TodoManager.initializeTodo, JS.map. simpl. by rewrite length_imap.
Qed.

Lemma held_ids_addStep title description m :
  held_ids (TodoManager.addStep title description m).2
  = held_ids m ++ [JS.toString (TodoManager.nextId m)].
Proof.
  unfold held_ids, TodoManager.addStep, JS.push.
  cbn [snd TodoManager.steps]. by rewrite fmap_app.
Qed.

Lemma held_ids_deleteStep id m :
  held_ids (TodoManager.deleteStep id m).2 `sublist_of` held_ids m.
Proof.
  destruct (list_find (λ s, String.eqb (TodoStep.id s) id = true)
              (TodoManager.steps m)) as [[i step]|] eqn:E.
  - rewrite (deleteStep_found _ _ _ _ E). unfold held_ids. simpl.
    rewrite list_fmap_delete. apply sublist_delete.
  - by rewrite (deleteStep_not_found _ _ E).
Qed.

Lemma nextId_deleteStep id m :
  TodoManager.nextId (TodoManager.deleteStep id m).2 = TodoManager.nextId m.
Proof.
  unfold TodoManager.deleteStep. by destruct (negb _).
Qed.

Lemma held_ids_updateStatus id status m :
  held_ids (TodoManager.updateStatus id status m).2 = held_ids m.
Proof.
  unfold TodoManager.updateStatus, JS.find.
  destruct (list_find _ _) as [[i step]|] eqn:E; [|done].
  apply list_find_Some in E as (Hi & _ & _).
  unfold held_ids. simpl. rewrite list_fmap_insert. simpl.
  apply list_insert_id. by rewrite list_lookup_fmap, Hi.
Qed.

Lemma nextId_updateStatus id status m :
  TodoManager.nextId (TodoManager.updateStatus id status m).2
  = TodoManager.nextId m.
Proof.
  unfold TodoManager.updateStatus. by destruct (JS.find _ _) as [[i step]|].
Qed.

(** *** The invariant *)

Lemma Inv_new : Inv TodoManager.new.
Proof. split_and!; [constructor|done|constructor]. Qed.

Lemma Inv_clearTodo m : Inv (TodoManager.clearTodo m).
Proof. split_and!; [constructor|done|constructor]. Qed.

Lemma Inv_initializeTodo entries m : Inv (TodoManager.initializeTodo entries m).
Proof.
  unfold Inv. rewrite held_ids_initializeTodo, nextId_initializeTodo.
  split_and!.
  - apply NoDup_fmap_2; [|apply NoDup_seq].
    intros i j E%toString_inj. lia.
  - lia.
  - apply Forall_fmap, Forall_forall. intros i Hi%elem_of_seq. simpl.
    exists (N.of_nat i + 1)%N. split; [done|lia].
Qed.

Lemma Inv_addStep title description m :
  Inv m → Inv (TodoManager.addStep title description m).2.
Proof.
  intros (Hnd & H1 & Hb). unfold Inv. rewrite held_ids_addStep. simpl.
  split_and!.
  - apply NoDup_app. split_and!; [done| |apply NoDup_singleton].
    intros x Hx ->%list_elem_of_singleton.
    rewrite Forall_forall in Hb.
    destruct (Hb _ Hx) as (k & E%toString_inj & Hk). lia.
  - lia.
  - apply Forall_app. split.
    + eapply Forall_impl; [exact Hb|]. intros x (k & -> & Hk).
      exists k. split; [done|lia].
    + apply Forall_singleton. exists (TodoManager.nextId m).
      split; [done|lia].
Qed.

Lemma Inv_deleteStep id m : Inv m → Inv (TodoManager.deleteStep id m).2.
Proof.
  intros (Hnd & H1 & Hb). unfold Inv. rewrite nextId_deleteStep.
  pose proof (held_ids_deleteStep id m) as Hsub. split_and!.
  - by eapply sublist_NoDup.
  - done.
  - rewrite Forall_forall in Hb |- *. intros x Hx.
    apply Hb. by eapply elem_of_sublist.
Qed.

Lemma Inv_updateStatus id status m :
  Inv m → Inv (TodoManager.updateStatus id status m).2.
Proof.
  unfold Inv. by rewrite held_ids_updateStatus, nextId_updateStatus.
Qed.

Lemma Inv_apply o m : Inv m → Inv (apply o m).
Proof.
  intros Hm. destruct o; simpl.
  - apply Inv_initializeTodo.
  - by apply Inv_addStep.
  - by apply Inv_deleteStep.
  - by apply Inv_updateStatus.
  - apply Inv_clearTodo.
Qed.

Lemma Inv_run ops m : Inv m → Inv (run ops m).
Proof.
  revert m. induction ops as [|o ops IH]; intros m Hm; [done|].
  apply IH, Inv_apply, Hm.
Qed.

(** Every state that operations reach from a new store satisfies the
    invariant. *)
Lemma Inv_reachable ops : Inv (run ops TodoManager.new).
Proof. apply Inv_run, Inv_new. Qed.

Lemma run_app ops1 ops2 m : run (ops1 ++ ops2) m = run ops2 (run ops1 m).
Proof. apply foldl_app. Qed.

(** *** Stretches without [initialize] and [clear] *)

Lemma nextId_apply_no_reset o m :
  resets o = false → (TodoManager.nextId m ≤ TodoManager.nextId (apply o m))%N.
Proof.
  destruct o; try discriminate; intros _; simpl.
  - lia.
  - by rewrite nextId_deleteStep.
  - by rewrite nextId_updateStatus.
Qed.

Lemma nextId_run_no_reset ops m :
  forallb (λ o, negb (resets o)) ops = true →
  (TodoManager.nextId m ≤ TodoManager.nextId (run ops m))%N.
Proof.
  revert m. induction ops as [|o ops IH]; intros m H; simpl in *; [lia|].
  apply andb_true_iff in H as [Ho%negb_true_iff H].
  etransitivity; [apply (nextId_apply_no_reset o m Ho)|]. by apply IH.
Qed.

Lemma counters_head ops m :
  ∃ cs, counters ops m = TodoManager.nextId m :: cs.
Proof. destruct ops; simpl; eauto. Qed.

Lemma counters_no_reset ops m :
  forallb (λ o, negb (resets o)) ops = true →
  nondecreasing (counters ops m) = true.
Proof.
  revert m. induction ops as [|o ops IH]; intros m H; [done|].
  simpl in H. apply andb_true_iff in H as [Ho%negb_true_iff H].
  specialize (IH (apply o m) H).
  change (counters (o :: ops) m)
    with (TodoManager.nextId m :: counters ops (apply o m)).
  destruct (counters_head ops (apply o m)) as [cs Ecs].
  rewrite Ecs in *. simpl. simpl in IH. rewrite IH, andb_true_r.
  apply N.leb_le. by apply nextId_apply_no_reset.
Qed.

(** In such a stretch every id assigned is the numeral of a counter value
    between the counter at the start and the counter at the end. *)
Lemma assigned_ids_no_reset ops m :
  forallb (λ o, negb (resets o)) ops = true →
  NoDup (assigned_ids ops m)
  ∧ Forall (λ id, ∃ k, id = JS.toString k
                ∧ (TodoManager.nextId m ≤ k < TodoManager.nextId (run ops m))%N)
      (assigned_ids ops m).
Proof.
  revert m. induction ops as [|o ops IH]; intros m H; simpl in *.
  { split; constructor. }
  apply andb_true_iff in H as [Ho%negb_true_iff H].
  destruct (IH (apply o m) H) as [Hnd Hb].
  pose proof (nextId_run_no_reset ops (apply o m) H) as Hle.
  fold (run ops (apply o m)).
  destruct o; try discriminate; simpl in *.
  - split.
    + constructor; [|done]. intros Hin.
      rewrite Forall_forall in Hb.
      destruct (Hb _ Hin) as (k & E%toString_inj & Hk). lia.
    + constructor.
      * exists (TodoManager.nextId m). split; [done|lia].
      * eapply Forall_impl; [exact Hb|]. intros x (k & -> & Hk).
        exists k. split; [done|lia].
  - rewrite nextId_deleteStep in Hb. by split.
  - rewrite nextId_updateStatus in Hb. by split.
Qed.

End Store.

(** ** Identifiers over the lifetime of a store *)

Section Lifetime.

Implicit Types (m : TodoManager) (ops : list Op).

Lemma held_and_assigned_distinct ops m :
  Inv m →
  forallb (λ o, negb (resets o)) ops = true →
  NoDup (held_ids m ++ assigned_ids ops m).
Proof.
  intros (Hnd & _ & Hheld) Hops.
  destruct (assigned_ids_no_reset ops m Hops) as [Hnd' Hnew].
  apply NoDup_app. split_and!; [done| |done].
  intros x Hx Hx'. rewrite Forall_forall in Hheld, Hnew.
  destruct (Hheld _ Hx) as (k & -> & Hk).
  destruct (Hnew _ Hx') as (k' & E%toString_inj & Hk'). lia.
Qed.

(** C1, as stated, does not hold.  The operations [add; clear; add] on a
    new store assign the id "1" twice and take the counter from 2 back to
    1; [add; add; initialize [e]] assigns "1" twice and takes the counter
    from 3 back to 2.  Neither are the ids ever assigned unique over every
    sequence of operations, nor does the counter never decrease. *)
Lemma ids_reassigned_after_clear :
  let ops := [OpAdd "a" "b"; OpClear; OpAdd "c" "d"] in
  let ops' :=
    [OpAdd "a" "b"; OpAdd "c" "d"; OpInitialize [StepInit.mk "e" "f"]] in
  assigned_ids ops TodoManager.new = ["1"; "1"]
  ∧ counters ops TodoManager.new = [1; 2; 1; 2]%N
  ∧ assigned_ids ops' TodoManager.new = ["1"; "2"; "1"]
  ∧ counters ops' TodoManager.new = [1; 2; 3; 2]%N
  ∧ ¬ (∀ ops, NoDup (assigned_ids ops TodoManager.new))
  ∧ ¬ (∀ ops, nondecreasing (counters ops TodoManager.new) = true).
Proof.
  split_and!; [reflexivity..| |].
  - intros H. specialize (H [OpAdd "a" "b"; OpClear; OpAdd "c" "d"]).
    apply NoDup_cons in H as [Hnotin _]. apply Hnotin. left.
  - intros H. specialize (H [OpAdd "a" "b"; OpClear; OpAdd "c" "d"]).
    discriminate H.
Qed.

(** C1, amended.  In every state that operations reach from a new store
    the ids held are pairwise distinct.  Over every run of [add], [delete]
    and [updateStatus] operations from such a state (no [initialize] and
    no [clear] in the run), the ids assigned are pairwise distinct and
    differ from every id held when the run starts, so none is assigned
    again, also after its record is deleted; and the counter never
    decreases.  [clear] sets the counter to 1 and [initialize] sets it to
    the number of entries plus 1, whatever it was. *)
Theorem ids_unique_between_resets
  (prefix ops : list Op) (entries : list StepInit) :
  forallb (λ o, negb (resets o)) ops = true →
  let m := run prefix TodoManager.new in
  NoDup (held_ids m)
  ∧ NoDup (held_ids m ++ assigned_ids ops m)
  ∧ NoDup (held_ids (run ops m))
  ∧ nondecreasing (counters ops m) = true
  ∧ TodoManager.nextId (TodoManager.clearTodo m) = 1%N
  ∧ TodoManager.nextId (TodoManager.initializeTodo entries m)
    = (N.of_nat (length entries) + 1)%N.
Proof.
  intros Hops m. pose proof (Inv_reachable prefix) as Hm. fold m in Hm.
  split_and!.
  - apply Hm.
  - by apply held_and_assigned_distinct.
  - by apply Inv_run.
  - by apply counters_no_reset.
  - reflexivity.
  - apply nextId_initializeTodo.
Qed.

Lemma ids_unique_between_resets_witness :
  let m := run [OpInitialize [StepInit.mk "A" "a"; StepInit.mk "B" "b"]]
             TodoManager.new in
  let ops := [OpDelete "2"; OpAdd "C" "c"; OpUpdateStatus "1" "made";
              OpAdd "D" "d"] in
  held_ids m = ["1"; "2"]
  ∧ assigned_ids ops m = ["3"; "4"]
  ∧ NoDup (held_ids m ++ assigned_ids ops m)
  ∧ nondecreasing (counters ops m) = true.
Proof.
  split_and!; [reflexivity|reflexivity| |].
  - apply (ids_unique_between_resets
             [OpInitialize [StepInit.mk "A" "a"; StepInit.mk "B" "b"]]
             [OpDelete "2"; OpAdd "C" "c"; OpUpdateStatus "1" "made";
              OpAdd "D" "d"] []).
    reflexivity.
  - apply (ids_unique_between_resets
             [OpInitialize [StepInit.mk "A" "a"; StepInit.mk "B" "b"]]
             [OpDelete "2"; OpAdd "C" "c"; OpUpdateStatus "1" "made";
              OpAdd "D" "d"] []).
    reflexivity.
Defined.

End Lifetime.

(** ** [initialize], [clear] and consecutive [add]s *)

Section Numbering.

Implicit Types (m : TodoManager).

Lemma lookup_initializeTodo entries m i e :
  entries !! i = Some e →
  TodoManager.getSteps (TodoManager.initializeTodo entries m) !! i
  = Some (TodoStep.mk (JS.toString (N.of_nat i + 1)) (StepInit.title e)
            (StepInit.description e) TodoStatus.NOT_MADE).
Proof.
  intros He. unfold TodoManager.getSteps, TodoManager.initializeTodo, JS.map.
  simpl. by rewrite list_lookup_imap, He.
Qed.

Lemma seq_numbers (n : nat) :
  (λ i, JS.toString (N.of_nat i + 1)) <$> seq 0 n
  = JS.toString <$> (N.of_nat <$> seq 1 n).
Proof.
  rewrite <- list_fmap_compose, <- fmap_S_seq, <- list_fmap_compose.
  apply list_fmap_ext. intros _ i _. simpl. f_equal. lia.
Qed.

(** C4.  [initialize] with N entries, whatever the store held before:
    the list has N records, the i-th carries the i-th entry's title and
    description, status [not_made] and the numeral of i as its id (so the
    ids are "1" to "N" in order); the counter is N + 1 and the next [add]
    returns the numeral of N + 1.  The result does not depend on the prior
    state, the operation is total, and the tool's [initialize] action
    succeeds on every array. *)
Theorem initialize_numbers_from_one
  (entries : list StepInit) (m m0 : TodoManager) (title description : string)
  (p : Params.t) :
  let m' := TodoManager.initializeTodo entries m in
  let n := length entries in
  length (TodoManager.getSteps m') = n
  ∧ (∀ i e, entries !! i = Some e →
       TodoManager.getSteps m' !! i
       = Some (TodoStep.mk (JS.toString (N.of_nat i + 1)) (StepInit.title e)
                 (StepInit.description e) TodoStatus.NOT_MADE))
  ∧ held_ids m' = JS.toString <$> (N.of_nat <$> seq 1 n)
  ∧ Forall (λ s, TodoStep.status s = TodoStatus.NOT_MADE)
      (TodoManager.getSteps m')
  ∧ TodoManager.nextId m' = (N.of_nat n + 1)%N
  ∧ (TodoManager.addStep title description m').1
    = JS.toString (N.of_nat n + 1)
  ∧ m' = TodoManager.initializeTodo entries m0
  ∧ (Params.action p = "initialize" →
     Params.steps p = Params.StepsArray entries →
     Payload.success (ToolResult.llmContent (TodoTool.execute p m).1) = true
     ∧ (TodoTool.execute p m).2 = m').
Proof.
  intros m' n. split_and!.
  - unfold m', TodoManager.getSteps, TodoManager.initializeTodo, JS.map.
    simpl. apply length_imap.
  - intros i e. apply (lookup_initializeTodo entries m).
  - unfold m'. rewrite held_ids_initializeTodo. apply seq_numbers.
  - apply Forall_lookup. intros i s.
    unfold m', TodoManager.getSteps, TodoManager.initializeTodo, JS.map.
    simpl. rewrite list_lookup_imap.
    destruct (entries !! i); simpl; [|done]. by intros [= <-].
  - apply (nextId_initializeTodo entries m).
  - unfold TodoManager.addStep. simpl. f_equal.
    apply (nextId_initializeTodo entries m).
  - reflexivity.
  - intros Ha Hs. unfold TodoTool.execute, TodoTool.execute_try.
    rewrite Ha, Hs. simpl. done.
Qed.

Lemma initialize_numbers_from_one_witness :
  let entries := [StepInit.mk "A" "a"; StepInit.mk "B" "b"] in
  let m := run [OpAdd "x" "y"; OpAdd "z" "w"; OpAdd "u" "v"] TodoManager.new in
  let p := Params.mk "initialize" (Params.StepsArray entries)
             None None None None in
  TodoManager.getSteps (TodoTool.execute p m).2
  = [TodoStep.mk "1" "A" "a" "not_made"; TodoStep.mk "2" "B" "b" "not_made"]
  ∧ Payload.success (ToolResult.llmContent (TodoTool.execute p m).1) = true
  ∧ (TodoManager.addStep "C" "c" (TodoTool.execute p m).2).1 = "3".
Proof.
  pose proof (initialize_numbers_from_one
    [StepInit.mk "A" "a"; StepInit.mk "B" "b"]
    (run [OpAdd "x" "y"; OpAdd "z" "w"; OpAdd "u" "v"] TodoManager.new)
    TodoManager.new "C" "c"
    (Params.mk "initialize"
       (Params.StepsArray [StepInit.mk "A" "a"; StepInit.mk "B" "b"])
       None None None None)) as H.
  destruct H as (_ & _ & _ & _ & _ & _ & _ & H).
  destruct (H eq_refl eq_refl) as [Hs Hm].
  split_and!; [reflexivity|exact Hs|reflexivity].
Defined.

(** C5.  [clear] leaves the empty list and the counter 1, whatever the
    store held: the next [list()] is empty and an [add] right after
    returns the id "1". *)
Theorem clear_resets (m : TodoManager) (title description : string) :
  let m' := TodoManager.clearTodo m in
  TodoManager.steps m' = []
  ∧ TodoManager.getSteps m' = []
  ∧ TodoManager.nextId m' = 1%N
  ∧ (TodoManager.addStep title description m').1 = "1"
  ∧ TodoManager.getSteps (TodoManager.addStep title description m').2
    = [TodoStep.mk "1" title description TodoStatus.NOT_MADE].
Proof. by split_and!. Qed.

(** *** Consecutive adds *)

Lemma addSteps_ids (l : list (string * string)) m :
  (addSteps l m).1
  = (λ i, JS.toString (TodoManager.nextId m + N.of_nat i)) <$> seq 0 (length l).
Proof.
  revert m. induction l as [|[title description] l IH]; intros m; [done|].
  simpl. specialize (IH (TodoManager.addStep title description m).2).
  unfold TodoManager.addStep in *. simpl in *.
  destruct (addSteps l _) as [ids m2]. simpl in *. rewrite IH.
  f_equal; [f_equal; lia|].
  rewrite <- fmap_S_seq, <- list_fmap_compose.
  apply list_fmap_ext. intros _ i _. simpl. f_equal. lia.
Qed.

Lemma addSteps_assigned (l : list (string * string)) m :
  (addSteps l m).1 = assigned_ids ((λ td, OpAdd td.1 td.2) <$> l) m.
Proof.
  revert m. induction l as [|[title description] l IH]; intros m; [done|].
  simpl. unfold TodoManager.addStep. simpl.
  rewrite <- IH. by destruct (addSteps l _).
Qed.

Lemma increasing_from (n : N) (j len : nat) :
  increasing ((λ i, (n + N.of_nat i)%N) <$> seq j len) = true.
Proof.
  revert j. induction len as [|len IH]; intros j; [done|].
  specialize (IH (S j)). destruct len as [|len]; [done|].
  change (increasing ((n + N.of_nat j)%N ::
            ((λ i, (n + N.of_nat i)%N) <$> seq (S j) (S len))) = true).
  simpl in *. rewrite IH, andb_true_r. apply N.ltb_lt. lia.
Qed.

(** C6.  The ids returned by consecutive [add] calls, from any state, are
    the numerals of the counter values nextId, nextId + 1, ...: read as
    numbers they are strictly increasing, and they are pairwise distinct.
    From a state that operations reach from a new store none of them is
    the id of a record held at the start. *)
Theorem consecutive_adds_increasing :
  (∀ (l : list (string * string)) (m : TodoManager),
     let ids := (addSteps l m).1 in
     let vs := (λ i, (TodoManager.nextId m + N.of_nat i)%N)
                 <$> seq 0 (length l) in
     length ids = length l
     ∧ id_value <$> ids = Some <$> vs
     ∧ increasing vs = true
     ∧ NoDup ids)
  ∧ (∀ (prefix : list Op) (l : list (string * string)),
       let m := run prefix TodoManager.new in
       NoDup (held_ids m ++ (addSteps l m).1)).
Proof.
  split.
  - intros l m ids vs. unfold ids, vs. rewrite addSteps_ids. split_and!.
    + by rewrite length_fmap, length_seq.
    + rewrite <- !list_fmap_compose. apply list_fmap_ext.
      intros _ i _. simpl. apply id_value_toString.
    + apply increasing_from.
    + apply NoDup_fmap_2; [|apply NoDup_seq].
      intros i j E%toString_inj. lia.
  - intros prefix l m. rewrite addSteps_assigned.
    apply held_and_assigned_distinct; [apply Inv_reachable|].
    clear. induction l as [|[t d] l IH]; [done|]. simpl. exact IH.
Qed.

End Numbering.

(** ** [delete] and [updateStatus] *)

Section Lookup.

Implicit Types (m : TodoManager) (id : string) (step : TodoStep).

(** With distinct ids at most one record carries a given id. *)
Lemma unique_match m i j s s' :
  NoDup (held_ids m) →
  TodoManager.steps m !! i = Some s →
  TodoManager.steps m !! j = Some s' →
  TodoStep.id s = TodoStep.id s' →
  i = j.
Proof.
  intros Hnd Hi Hj E. unfold held_ids in Hnd.
  eapply (proj1 (NoDup_alt _) Hnd i j (TodoStep.id s)); rewrite list_lookup_fmap.
  - by rewrite Hi.
  - rewrite Hj. simpl. by rewrite E.
Qed.

Lemma find_id_Some m id i step :
  list_find (λ s, String.eqb (TodoStep.id s) id = true) (TodoManager.steps m)
    = Some (i, step) →
  TodoManager.steps m !! i = Some step ∧ TodoStep.id step = id
  ∧ ∀ j s, TodoManager.steps m !! j = Some s → j < i → TodoStep.id s ≠ id.
Proof.
  intros (Hi & Hid%id_eqb_true & Hfirst)%list_find_Some. split_and!; [done..|].
  intros j s Hj Hlt E%id_eqb_true. by eapply Hfirst.
Qed.

Lemma find_id_None m id :
  list_find (λ s, String.eqb (TodoStep.id s) id = true) (TodoManager.steps m)
    = None →
  id ∉ held_ids m.
Proof.
  intros HN%list_find_None. unfold held_ids.
  intros (s & E & Hs)%list_elem_of_fmap.
  rewrite Forall_forall in HN. apply (HN _ Hs). by apply id_eqb_true.
Qed.

Lemma find_id_held m id :
  id ∈ held_ids m →
  ∃ i step,
    list_find (λ s, String.eqb (TodoStep.id s) id = true) (TodoManager.steps m)
      = Some (i, step).
Proof.
  intros Hin.
  destruct (list_find _ (TodoManager.steps m)) as [[i step]|] eqn:E; [eauto|].
  by apply find_id_None in E.
Qed.

(** What [deleteStep] does in any state: it removes the first record whose
    id equals the argument and answers [true], or finds none, changes
    nothing and answers [false]. *)
Lemma deleteStep_spec id m :
  (∃ i step,
     TodoManager.steps m !! i = Some step ∧ TodoStep.id step = id
     ∧ (∀ j s, TodoManager.steps m !! j = Some s → j < i → TodoStep.id s ≠ id)
     ∧ TodoManager.deleteStep id m
       = (true,
          TodoManager.mk
            (take i (TodoManager.steps m) ++ drop (S i) (TodoManager.steps m))
            (TodoManager.nextId m)))
  ∨ ((id ∉ held_ids m) ∧ TodoManager.deleteStep id m = (false, m)).
Proof.
  destruct (list_find (λ s, String.eqb (TodoStep.id s) id = true)
              (TodoManager.steps m)) as [[i step]|] eqn:E.
  - left. exists i, step.
    destruct (find_id_Some _ _ _ _ E) as (Hi & Hid & Hfirst).
    split_and!; [done..|].
    by rewrite (deleteStep_found _ _ _ _ E), delete_take_drop.
  - right. split; [by apply find_id_None|by apply deleteStep_not_found].
Qed.

Lemma deleteStep_result id m :
  (TodoManager.deleteStep id m).1 = bool_decide (id ∈ held_ids m).
Proof.
  destruct (deleteStep_spec id m) as [(i & step & Hi & Hid & _ & ->)|[Hn ->]].
  - simpl. symmetry. apply bool_decide_eq_true. unfold held_ids.
    apply list_elem_of_fmap. exists step. split; [done|].
    by eapply list_elem_of_lookup_2.
  - simpl. symmetry. by apply bool_decide_eq_false.
Qed.

Lemma deleted_id_gone id m :
  NoDup (held_ids m) → id ∉ held_ids (TodoManager.deleteStep id m).2.
Proof.
  intros Hnd.
  destruct (deleteStep_spec id m) as [(i & step & Hi & Hid & _ & ->)|[Hn ->]];
    [|done].
  simpl. unfold held_ids. simpl. rewrite <- delete_take_drop.
  intros (s & E & Hs)%list_elem_of_fmap.
  apply list_elem_of_lookup in Hs as [j Hj].
  destruct (decide (j < i)) as [Hlt|Hge].
  - rewrite list_lookup_delete_lt in Hj by done.
    assert (j = i) by (eapply unique_match; eauto; congruence). lia.
  - rewrite list_lookup_delete_ge in Hj by lia.
    assert (S j = i) by (eapply unique_match; eauto; congruence). lia.
Qed.

End Lookup.

Section DeleteUpdate.

Implicit Types (m : TodoManager) (id : string) (step : TodoStep).

(** C8.  In any state [delete(id)] answers whether a record with exactly
    that id is held; if one is, the first such record is removed and the
    others keep their values and their order, otherwise nothing changes;
    the counter is never changed.  In every state that operations reach
    from a new store the record removed is the only one with that id, no
    record with that id remains, and a second [delete(id)] answers
    [false]. *)
Theorem delete_removes_the_match :
  (∀ m id,
     let r := TodoManager.deleteStep id m in
     ((∃ i step,
         TodoManager.steps m !! i = Some step ∧ TodoStep.id step = id
         ∧ (∀ j s, TodoManager.steps m !! j = Some s → j < i →
              TodoStep.id s ≠ id)
         ∧ r = (true,
                TodoManager.mk
                  (take i (TodoManager.steps m)
                   ++ drop (S i) (TodoManager.steps m))
                  (TodoManager.nextId m)))
      ∨ ((id ∉ held_ids m) ∧ r = (false, m)))
     ∧ r.1 = bool_decide (id ∈ held_ids m)
     ∧ TodoManager.nextId r.2 = TodoManager.nextId m
     ∧ TodoManager.steps r.2 `sublist_of` TodoManager.steps m)
  ∧ (∀ (prefix : list Op) id,
       let m := run prefix TodoManager.new in
       let r := TodoManager.deleteStep id m in
       (∀ i j s s',
          TodoManager.steps m !! i = Some s →
          TodoManager.steps m !! j = Some s' →
          TodoStep.id s = id → TodoStep.id s' = id → i = j)
       ∧ (id ∉ held_ids r.2)
       ∧ TodoManager.deleteStep id r.2 = (false, r.2)).
Proof.
  split.
  - intros m id r. split_and!.
    + apply deleteStep_spec.
    + apply deleteStep_result.
    + apply nextId_deleteStep.
    + unfold r.
      destruct (deleteStep_spec id m) as [(i & step & _ & _ & _ & ->)|[_ ->]];
        simpl; [|done].
      rewrite <- delete_take_drop. apply sublist_delete.
  - intros prefix id m r.
    assert (NoDup (held_ids m)) as Hnd by apply (Inv_reachable prefix).
    assert (id ∉ held_ids r.2) as Hgone by by apply deleted_id_gone.
    split_and!; [|done|].
    + intros i j s s' Hi Hj E E'. eapply unique_match; eauto. congruence.
    + destruct (deleteStep_spec id r.2) as [(i & step & Hi & Hid & _)|[_ E]];
        [|done].
      destruct Hgone. unfold held_ids. apply list_elem_of_fmap.
      exists step. split; [done|]. by eapply list_elem_of_lookup_2.
Qed.

(** [updateStatus] on an id that is held: the first record with that id
    gets the status, verbatim. *)
Lemma updateStatus_found id status m i step :
  list_find (λ s, String.eqb (TodoStep.id s) id = true) (TodoManager.steps m)
    = Some (i, step) →
  TodoManager.updateStatus id status m
  = (true,
     TodoManager.mk
       (<[i := TodoStep.set_status status step]> (TodoManager.steps m))
       (TodoManager.nextId m)).
Proof. intros E. unfold TodoManager.updateStatus, JS.find. by rewrite E. Qed.

Lemma updateStatus_not_found id status m :
  list_find (λ s, String.eqb (TodoStep.id s) id = true) (TodoManager.steps m)
    = None →
  TodoManager.updateStatus id status m = (false, m).
Proof. intros E. unfold TodoManager.updateStatus, JS.find. by rewrite E. Qed.

(** C10.  On a store that operations reach from a new one, the
    [update_status] action with the id of a record held and any non-empty
    status string succeeds, and the record with that id gets that very
    string as its status; the string is not compared with the three
    values of [TodoStatus]. *)
Theorem update_status_takes_any_status
  (prefix : list Op) (p : Params.t) (sid st : string) :
  let m := run prefix TodoManager.new in
  Params.action p = "update_status" →
  Params.step_id p = Some sid →
  Params.status p = Some st →
  st ≠ "" →
  sid ∈ held_ids m →
  ∃ i step,
    TodoManager.steps m !! i = Some step
    ∧ TodoStep.id step = sid
    ∧ TodoTool.execute p m
      = (ToolResult.mk
           (Payload.ok ("Updated step " +:+ sid +:+ " status to " +:+ st))
           ("Updated step " +:+ sid +:+ " status to " +:+ st),
         TodoManager.mk
           (<[i := TodoStep.mk (TodoStep.id step) (TodoStep.title step)
                     (TodoStep.description step) st]> (TodoManager.steps m))
           (TodoManager.nextId m))
    ∧ Payload.success (ToolResult.llmContent (TodoTool.execute p m).1) = true
    ∧ TodoManager.steps (TodoTool.execute p m).2 !! i
      = Some (TodoStep.mk sid (TodoStep.title step)
                (TodoStep.description step) st).
Proof.
  intros m Ha Hid Hst Hne Hheld.
  destruct (find_id_held _ _ Hheld) as (i & step & E).
  destruct (find_id_Some _ _ _ _ E) as (Hi & Hsid & _).
  exists i, step.
  assert (sid ≠ "") as Hsne.
  { destruct (Inv_reachable prefix) as (_ & _ & Hb). fold m in Hb.
    rewrite Forall_forall in Hb. destruct (Hb _ Hheld) as (k & -> & _).
    apply toString_nonempty. }
  assert (TodoTool.execute p m
          = (ToolResult.mk
               (Payload.ok ("Updated step " +:+ sid +:+ " status to " +:+ st))
               ("Updated step " +:+ sid +:+ " status to " +:+ st),
             TodoManager.mk
               (<[i := TodoStep.set_status st step]> (TodoManager.steps m))
               (TodoManager.nextId m))) as Hex.
  { unfold TodoTool.execute, TodoTool.execute_try.
    rewrite Ha, Hid, Hst. simpl.
    apply String.eqb_neq in Hne, Hsne. rewrite Hne, Hsne. simpl.
    by rewrite (updateStatus_found _ _ _ _ _ E). }
  split_and!; [done|done|exact Hex| |].
  - by rewrite Hex.
  - rewrite Hex. simpl. rewrite list_lookup_insert_eq.
    + unfold TodoStep.set_status. by rewrite Hsid.
    + by eapply lookup_lt_Some.
Qed.

Lemma update_status_takes_any_status_witness :
  let prefix := [OpInitialize [StepInit.mk "A" "a"; StepInit.mk "B" "b"]] in
  let p := Params.mk "update_status" Params.StepsAbsent (Some "2") None None
             (Some "bogus") in
  ∃ i step,
    TodoManager.steps (run prefix TodoManager.new) !! i = Some step
    ∧ TodoStep.id step = "2"
    ∧ Payload.success
        (ToolResult.llmContent
           (TodoTool.execute p (run prefix TodoManager.new)).1) = true
    ∧ TodoManager.steps (TodoTool.execute p (run prefix TodoManager.new)).2 !! i
      = Some (TodoStep.mk "2" (TodoStep.title step)
                (TodoStep.description step) "bogus").
Proof.
  destruct (update_status_takes_any_status
              [OpInitialize [StepInit.mk "A" "a"; StepInit.mk "B" "b"]]
              (Params.mk "update_status" Params.StepsAbsent (Some "2") None
                 None (Some "bogus"))
              "2" "bogus" eq_refl eq_refl eq_refl)
    as (i & step & H1 & H2 & _ & H3 & H4).
  - discriminate.
  - vm_compute. right. left.
  - exists i, step. by split_and!.
Defined.

End DeleteUpdate.

(** ** The tool's answers *)

Section Answers.

Implicit Types (p : Params.t) (m : TodoManager).

(** A field that the guards of [execute] take as missing: absent, or the
    empty string. *)
Lemma not_truthy (o : option string) :
  JS.truthy o = false ↔ o = None ∨ o = Some "".
Proof.
  destruct o as [s|]; simpl.
  - rewrite negb_false_iff, String.eqb_eq. split.
    + intros ->. by right.
    + by intros [[=]|[= ->]].
  - split; [by left|done].
Qed.

(** C2, as stated, does not hold.  A request for [add] whose title field
    is present and is the empty string, with a description, is refused:
    the action also fails when neither field is missing. *)
Lemma add_refuses_empty_title :
  let p := Params.mk "add" Params.StepsAbsent None (Some "") (Some "d") None in
  Params.title p ≠ None ∧ Params.description p ≠ None
  ∧ TodoTool.execute p TodoManager.new
    = (TodoTool.failed "Title and description required for add action",
       TodoManager.new)
  ∧ ¬ (∀ p m, Params.action p = "add" →
         (Payload.success (ToolResult.llmContent (TodoTool.execute p m).1)
          = false
          ↔ Params.title p = None ∨ Params.description p = None)).
Proof.
  split_and!; [done|done|reflexivity|].
  intros H.
  destruct (H (Params.mk "add" Params.StepsAbsent None (Some "") (Some "d")
                 None) TodoManager.new eq_refl) as [H1 _].
  by destruct (H1 eq_refl).
Qed.

(** C2, amended.  The [add] action fails exactly when the title or the
    description is missing or is the empty string.  It then returns the
    failure response and leaves the store as it was.  Otherwise it appends
    a [not_made] step with that title and description and returns success
    with the id just assigned, the numeral of the counter. *)
Theorem add_fails_iff_missing_or_empty p m :
  Params.action p = "add" →
  (Payload.success (ToolResult.llmContent (TodoTool.execute p m).1) = false
   ↔ (Params.title p = None ∨ Params.title p = Some "")
     ∨ (Params.description p = None ∨ Params.description p = Some ""))
  ∧ (Payload.success (ToolResult.llmContent (TodoTool.execute p m).1) = false →
     TodoTool.execute p m
     = (TodoTool.failed "Title and description required for add action", m))
  ∧ (∀ title description,
       Params.title p = Some title → title ≠ "" →
       Params.description p = Some description → description ≠ "" →
       TodoTool.execute p m
       = (ToolResult.mk
            (Payload.mk true (Some ("Added step: " +:+ title)) None None
               (Some (JS.toString (TodoManager.nextId m))) None)
            ("Added step: " +:+ title),
          TodoManager.mk
            (TodoManager.steps m
             ++ [TodoStep.mk (JS.toString (TodoManager.nextId m)) title
                   description TodoStatus.NOT_MADE])
            (TodoManager.nextId m + 1))).
Proof.
  intros Ha.
  assert (TodoTool.execute p m
          = if negb (JS.truthy (Params.title p))
               || negb (JS.truthy (Params.description p))
            then (TodoTool.failed
                    "Title and description required for add action", m)
            else (ToolResult.mk
                    (Payload.mk true
                       (Some ("Added step: " +:+ default "" (Params.title p)))
                       None None
                       (Some (JS.toString (TodoManager.nextId m))) None)
                    ("Added step: " +:+ default "" (Params.title p)),
                  TodoManager.mk
                    (TodoManager.steps m
                     ++ [TodoStep.mk (JS.toString (TodoManager.nextId m))
                           (default "" (Params.title p))
                           (default "" (Params.description p))
                           TodoStatus.NOT_MADE])
                    (TodoManager.nextId m + 1))) as Hex.
  { unfold TodoTool.execute, TodoTool.execute_try. rewrite Ha. simpl.
    by destruct (negb _ || negb _). }
  rewrite Hex. rewrite <- !not_truthy.
  destruct (JS.truthy (Params.title p)) eqn:Et;
    destruct (JS.truthy (Params.description p)) eqn:Ed; simpl.
  - split_and!.
    + split; [discriminate|]. by intros [|].
    + discriminate.
    + by intros title description -> _ -> _.
  - split_and!; [split; [by right|done]|done|].
    intros title description _ _ Hd Hne. rewrite Hd in Ed. simpl in Ed.
    apply negb_false_iff, String.eqb_eq in Ed. done.
  - split_and!; [split; [by left|done]|done|].
    intros title description Ht Hne _ _. rewrite Ht in Et. simpl in Et.
    apply negb_false_iff, String.eqb_eq in Et. done.
  - split_and!; [split; [by left|done]|done|].
    intros title description Ht Hne _ _. rewrite Ht in Et. simpl in Et.
    apply negb_false_iff, String.eqb_eq in Et. done.
Qed.

Lemma add_fails_iff_missing_or_empty_witness :
  let p := Params.mk "add" Params.StepsAbsent None (Some "C") (Some "c") None in
  let m := run [OpInitialize [StepInit.mk "A" "a"; StepInit.mk "B" "b"]]
             TodoManager.new in
  Payload.step_id (ToolResult.llmContent (TodoTool.execute p m).1) = Some "3"
  ∧ length (TodoManager.steps (TodoTool.execute p m).2) = 3.
Proof.
  destruct (add_fails_iff_missing_or_empty
              (Params.mk "add" Params.StepsAbsent None (Some "C") (Some "c")
                 None)
              (run [OpInitialize [StepInit.mk "A" "a"; StepInit.mk "B" "b"]]
                 TodoManager.new)
              eq_refl) as (_ & _ & H).
  cbv zeta.
  rewrite (H "C" "c" eq_refl ltac:(discriminate) eq_refl ltac:(discriminate)).
  split; reflexivity.
Defined.

Lemma deleteStep_false id m m' :
  TodoManager.deleteStep id m = (false, m') → m' = m.
Proof.
  destruct (deleteStep_spec id m) as [(i & step & _ & _ & _ & ->)|[_ ->]];
    congruence.
Qed.














End Answers.

(** ** The rendering *)

Section Display.

Implicit Types (m : TodoManager) (s : string).

Lemma has_LF_app s1 s2 : has_LF (s1 +:+ s2) = has_LF s1 || has_LF s2.
Proof.
  induction s1 as [|c s1 IH]; simpl; [done|].
  by rewrite IH, orb_assoc.
Qed.

Lemma pieces_not_nil s : pieces s ≠ [].
Proof.
  destruct s as [|c s]; simpl; [done|].
  destruct (Ascii.eqb c LF); [done|]. by destruct (pieces s).
Qed.

(** A text without line feed is one piece. *)
Lemma pieces_one s : has_LF s = false → pieces s = [s].
Proof.
  induction s as [|c s IH]; simpl; [done|].
  intros [Hc Hs]%orb_false_iff. rewrite Hc, (IH Hs). done.
Qed.

(** A text without line feed, a line feed, and more text. *)
Lemma pieces_line s rest :
  has_LF s = false → pieces (s +:+ String LF rest) = s :: pieces rest.
Proof.
  induction s as [|c s IH]; simpl; [done|].
  intros [Hc Hs]%orb_false_iff. rewrite Hc, (IH Hs). done.
Qed.

Lemma join_cons sep x y (l : list string) :
  JS.join sep (x :: y :: l) = x +:+ sep +:+ JS.join sep (y :: l).
Proof. reflexivity. Qed.

Lemma pieces_join (l : list string) :
  l ≠ [] → Forall (λ x, has_LF x = false) l →
  pieces (JS.join (String LF "") l) = l.
Proof.
  induction l as [|x l IH]; [done|]. intros _ Hl.
  apply Forall_cons in Hl as [Hx Hl]. destruct l as [|y l].
  - simpl. by apply pieces_one.
  - rewrite join_cons.
    change (pieces (x +:+ String LF (JS.join (String LF "") (y :: l)))
            = x :: y :: l).
    rewrite pieces_line by done. f_equal. by apply IH.
Qed.

Lemma join_not_empty x (l : list string) :
  x ≠ "" → JS.join (String LF "") (x :: l) ≠ "".
Proof.
  intros Hx. destruct l as [|y l]; [done|]. rewrite join_cons.
  destruct x; [done|]. discriminate.
Qed.

(** The glyph of a status is one of the three of the source. *)
Lemma getStatusIcon_cases (status : TodoStatus.t) :
  TodoManager.getStatusIcon status = TodoManager.ICON_NOT_MADE
  ∨ TodoManager.getStatusIcon status = TodoManager.ICON_IN_PROGRESS
  ∨ TodoManager.getStatusIcon status = TodoManager.ICON_MADE.
Proof.
  unfold TodoManager.getStatusIcon. repeat case_match; eauto.
Qed.

Lemma displayLine_no_LF (step : TodoStep) :
  has_LF (TodoStep.title step) = false →
  has_LF (TodoManager.displayLine step) = false.
Proof.
  intros Ht. unfold TodoManager.displayLine.
  rewrite !has_LF_app, Ht.
  by destruct (getStatusIcon_cases (TodoStep.status step)) as [->|[->| ->]].
Qed.

Lemma displayLine_not_empty (step : TodoStep) :
  TodoManager.displayLine step ≠ "".
Proof.
  unfold TodoManager.displayLine.
  by destruct (getStatusIcon_cases (TodoStep.status step)) as [->|[->| ->]].
Qed.

(** In any state the rendering is the lines of the steps, in store order,
    joined by line feeds. *)
Lemma getStepsForDisplay_join m :
  TodoManager.getStepsForDisplay m
  = JS.join (String LF "") (TodoManager.displayLine <$> TodoManager.steps m).
Proof.
  unfold TodoManager.getStepsForDisplay, JS.map.
  rewrite (imap_const TodoManager.displayLine).
  by destruct (TodoManager.steps m).
Qed.

(** C9, as stated, does not hold for every state.  A step whose title has
    a line feed takes two lines of the rendering, and the second line has
    no glyph. *)
Lemma title_with_line_feed_takes_two_lines :
  let m := (TodoManager.addStep (String "a" (String LF "b")) "d"
              TodoManager.new).2 in
  length (TodoManager.steps m) = 1
  ∧ lines (TodoManager.getStepsForDisplay m)
    = [TodoManager.ICON_NOT_MADE +:+ " a"; "b"]
  ∧ ¬ (∀ m, lines (TodoManager.getStepsForDisplay m)
            = (λ step, TodoManager.getStatusIcon (TodoStep.status step)
                       +:+ " " +:+ TodoStep.title step)
              <$> TodoManager.steps m).
Proof.
  split_and!; [reflexivity|reflexivity|].
  intros H.
  specialize (H (TodoManager.addStep (String "a" (String LF "b")) "d"
                   TodoManager.new).2).
  discriminate H.
Qed.

(** C9, amended.  When no title in the store has a line feed, the
    rendering has exactly one line per step, in store order, and the line
    of a step is the glyph of its status, a space, and its title.  The
    glyph is one of three fixed, pairwise distinct strings, one for each
    of [not_made], [in_progress] and [made] (any other status string gets
    the glyph of [not_made]).  The rendering of the empty list is the
    empty string. *)
Theorem display_one_line_per_step m :
  Forall (λ step, has_LF (TodoStep.title step) = false) (TodoManager.steps m) →
  lines (TodoManager.getStepsForDisplay m)
  = (λ step, TodoManager.getStatusIcon (TodoStep.status step)
             +:+ " " +:+ TodoStep.title step) <$> TodoManager.steps m
  ∧ length (lines (TodoManager.getStepsForDisplay m))
    = length (TodoManager.steps m)
  ∧ (TodoManager.steps m = [] → TodoManager.getStepsForDisplay m = "")
  ∧ (∀ status,
       TodoManager.getStatusIcon status
       ∈ [TodoManager.ICON_NOT_MADE; TodoManager.ICON_IN_PROGRESS;
          TodoManager.ICON_MADE])
  ∧ TodoManager.getStatusIcon TodoStatus.NOT_MADE = TodoManager.ICON_NOT_MADE
  ∧ TodoManager.getStatusIcon TodoStatus.IN_PROGRESS
    = TodoManager.ICON_IN_PROGRESS
  ∧ TodoManager.getStatusIcon TodoStatus.MADE = TodoManager.ICON_MADE
  ∧ (∀ status,
       status ≠ TodoStatus.NOT_MADE → status ≠ TodoStatus.IN_PROGRESS →
       status ≠ TodoStatus.MADE →
       TodoManager.getStatusIcon status = TodoManager.ICON_NOT_MADE)
  ∧ NoDup [TodoManager.ICON_NOT_MADE; TodoManager.ICON_IN_PROGRESS;
           TodoManager.ICON_MADE].
Proof.
  intros Hm.
  assert (lines (TodoManager.getStepsForDisplay m)
          = TodoManager.displayLine <$> TodoManager.steps m) as Hlines.
  { rewrite getStepsForDisplay_join. unfold lines.
    destruct (TodoManager.steps m) as [|step l] eqn:El; [done|].
    rewrite fmap_cons.
    destruct (String.eqb_spec
                (JS.join (String LF "")
                   (TodoManager.displayLine step
                    :: (TodoManager.displayLine <$> l))) "") as [E|_].
    { by apply join_not_empty in E; [|apply displayLine_not_empty]. }
    rewrite <- fmap_cons. apply pieces_join; [done|].
    apply Forall_fmap. eapply Forall_impl; [exact Hm|].
    intros s Hs. by apply displayLine_no_LF. }
  split_and!.
  - exact Hlines.
  - by rewrite Hlines, length_fmap.
  - intros E. unfold TodoManager.getStepsForDisplay. by rewrite E.
  - intros status. rewrite !elem_of_cons.
    destruct (getStatusIcon_cases status) as [->|[->| ->]]; auto.
  - reflexivity.
  - reflexivity.
  - reflexivity.
  - intros status H1 H2 H3. unfold TodoManager.getStatusIcon.
    apply String.eqb_neq in H1, H2, H3. by rewrite H1, H2, H3.
  - repeat (apply NoDup_cons; split;
            [rewrite ?elem_of_cons, elem_of_nil; vm_compute;
             intros H; repeat destruct H as [H|H]; try discriminate H;
             try done|]).
    apply NoDup_nil_2.
Qed.

Lemma display_one_line_per_step_witness :
  let m := run [OpInitialize [StepInit.mk "A" "a"; StepInit.mk "B" "b"];
                OpUpdateStatus "2" TodoStatus.IN_PROGRESS;
                OpAdd "C" "c"; OpUpdateStatus "3" "bogus"]
             TodoManager.new in
  lines (TodoManager.getStepsForDisplay m)
  = [TodoManager.ICON_NOT_MADE +:+ " A";
     TodoManager.ICON_IN_PROGRESS +:+ " B";
     TodoManager.ICON_NOT_MADE +:+ " C"]
  ∧ TodoManager.getStatusIcon "bogus" = TodoManager.ICON_NOT_MADE.
Proof.
  destruct (display_one_line_per_step
    (run [OpInitialize [StepInit.mk "A" "a"; StepInit.mk "B" "b"];
          OpUpdateStatus "2" TodoStatus.IN_PROGRESS;
          OpAdd "C" "c"; OpUpdateStatus "3" "bogus"] TodoManager.new))
    as (H & _ & _ & _ & _ & _ & _ & Hother & _).
  - repeat constructor.
  - cbv zeta. rewrite H. split; [reflexivity|by apply Hother].
Defined.

End Display.

(** ** Scenarios *)

Section Scenarios.

Example toString_samples :
  JS.toString <$> [0; 1; 9; 10; 4096]%N = ["0"; "1"; "9"; "10"; "4096"].
Proof. reflexivity. Qed.

(** The order of the ids is that of the numbers they are numerals of;
    compared as strings, "10" comes before "9". *)
Example numerals_as_strings :
  id_value <$> ["9"; "10"] = [Some 9%N; Some 10%N]
  ∧ String.ltb "10" "9" = true.
Proof. split; reflexivity. Qed.

Example initialize_two :
  TodoManager.getSteps (TodoManager.initializeTodo AB TodoManager.new)
  = [TodoStep.mk "1" "A" "a" "not_made"; TodoStep.mk "2" "B" "b" "not_made"].
Proof. reflexivity. Qed.

Example add_after_initialize :
  let r := TodoManager.addStep "C" "c"
             (TodoManager.initializeTodo AB TodoManager.new) in
  r.1 = "3" ∧ length (TodoManager.getSteps r.2) = 3.
Proof. split; reflexivity. Qed.

Example update_then_render :
  let r := TodoManager.updateStatus "2" TodoStatus.IN_PROGRESS
             (TodoManager.initializeTodo AB TodoManager.new) in
  r.1 = true
  ∧ TodoManager.getStepsForDisplay r.2
    = TodoManager.ICON_NOT_MADE +:+ " A" +:+ String LF ""
      +:+ TodoManager.ICON_IN_PROGRESS +:+ " B".
Proof. split; reflexivity. Qed.

Example update_unknown_id :
  let m := TodoManager.initializeTodo AB TodoManager.new in
  TodoManager.updateStatus "7" TodoStatus.MADE m = (false, m).
Proof. reflexivity. Qed.

Example delete_twice :
  let m := TodoManager.initializeTodo AB TodoManager.new in
  let r := TodoManager.deleteStep "1" m in
  r.1 = true
  ∧ TodoManager.getSteps r.2 = [TodoStep.mk "2" "B" "b" "not_made"]
  ∧ (TodoManager.deleteStep "1" r.2).1 = false.
Proof. split_and!; reflexivity. Qed.

Example get_steps_on_empty_store :
  let p := Params.mk "get_steps" Params.StepsAbsent None None None None in
  TodoTool.execute p TodoManager.new
  = (ToolResult.mk (Payload.mk true None None (Some []) None (Some ""))
       "No TODO steps",
     TodoManager.new).
Proof. reflexivity. Qed.

End Scenarios.

(** ** References: the heap model and the value-level model *)

Section HeapModel.

Implicit Types (w : Heap.t) (a r : Heap.ref) (objs : list TodoStep)
  (elems : list Heap.ref) (steps : list TodoStep).

(** [elems] refers, slot by slot, to the steps [steps]. *)
Lemma omap_refers objs elems steps :
  Forall2 (λ r s, objs !! r = Some s) elems steps →
  omap (λ r, objs !! r) elems = steps.
Proof.
  induction 1 as [|r s elems steps Hr _ IH]; [done|].
  simpl. rewrite Hr. f_equal. exact IH.
Qed.

Lemma refers_omap objs elems :
  Forall (λ r, r < length objs) elems →
  Forall2 (λ r s, objs !! r = Some s) elems (omap (λ r, objs !! r) elems).
Proof.
  induction 1 as [|r elems Hr _ IH]; [constructor|].
  destruct (lookup_lt_is_Some_2 objs r Hr) as [s Hs].
  replace (omap (λ r, objs !! r) (r :: elems))
    with (s :: omap (λ r, objs !! r) elems).
  - by constructor.
  - simpl. by rewrite Hs.
Qed.

Lemma refers_weaken objs more elems steps :
  Forall2 (λ r s, objs !! r = Some s) elems steps →
  Forall2 (λ r s, (objs ++ more) !! r = Some s) elems steps.
Proof.
  intros H. eapply Forall2_impl; [exact H|].
  intros r s Hr. simpl. by apply lookup_app_l_Some.
Qed.

Lemma refers_fresh objs more :
  Forall2 (λ r s, (objs ++ more) !! r = Some s)
    (seq (length objs) (length more)) more.
Proof.
  revert objs. induction more as [|x more IH]; intros objs; [constructor|].
  simpl. constructor.
  - by apply list_lookup_middle.
  - specialize (IH (objs ++ [x])).
    rewrite length_app, <- app_assoc in IH. simpl in IH.
    by replace (length objs + 1) with (S (length objs)) in IH by lia.
Qed.

(** Looking for an id through references finds the same position as
    looking for it in the steps referred to. *)
Lemma find_refers objs elems steps id :
  Forall2 (λ r s, objs !! r = Some s) elems steps →
  match
    list_find (λ r, match objs !! r with
                    | Some step => String.eqb (TodoStep.id step) id
                    | None => false
                    end = true) elems,
    list_find (λ s, String.eqb (TodoStep.id s) id = true) steps
  with
  | Some (i, r), Some (j, s) => i = j ∧ objs !! r = Some s
  | None, None => True
  | _, _ => False
  end.
Proof.
  induction 1 as [|r s elems steps Hr _ IH]; [done|].
  simpl. rewrite Hr.
  destruct (decide (String.eqb (TodoStep.id s) id = true)) as [E|E].
  - done.
  - destruct (list_find _ elems) as [[i r']|];
      destruct (list_find _ steps) as [[j s']|]; simpl; try done.
    destruct IH as [-> ?]. done.
Qed.

(** The store array of a well-formed state refers to the steps of the
    value-level store. *)
Lemma wf_refers w :
  Heap.wf w →
  Forall2 (λ r s, Heap.objects w !! r = Some s)
    (Heap.elements (Heap.steps w) w) (TodoManager.steps (Heap.abs w)).
Proof. intros (_ & _ & Hb). by apply refers_omap. Qed.

Lemma abs_intro w steps :
  Forall2 (λ r s, Heap.objects w !! r = Some s)
    (Heap.elements (Heap.steps w) w) steps →
  Heap.abs w = TodoManager.mk steps (Heap.nextId w).
Proof.
  intros H. unfold Heap.abs, Heap.contents, Heap.deref.
  by rewrite (omap_refers _ _ _ H).
Qed.

Lemma refers_allocated objs elems steps :
  Forall2 (λ r s, objs !! r = Some s) elems steps →
  Forall (λ r, r < length objs) elems.
Proof.
  induction 1 as [|r s elems steps Hr _ IH]; constructor; [|done].
  by eapply lookup_lt_Some.
Qed.

Lemma elements_alter (f : list Heap.ref → list Heap.ref) w objs' n :
  Heap.steps w < length (Heap.arrays w) →
  let w' := Heap.mk objs' (alter f (Heap.steps w) (Heap.arrays w))
              (Heap.steps w) n in
  Heap.elements (Heap.steps w') w' = f (Heap.elements (Heap.steps w) w).
Proof.
  intros Ha. unfold Heap.elements. simpl.
  rewrite list_lookup_alter_eq.
  destruct (lookup_lt_is_Some_2 _ _ Ha) as [l Hl]. by rewrite Hl.
Qed.

Lemma elements_new_array w l objs' n :
  let w' := Heap.mk objs' (Heap.arrays w ++ [l]) (length (Heap.arrays w)) n in
  Heap.elements (Heap.steps w') w' = l.
Proof. unfold Heap.elements. simpl. by rewrite list_lookup_middle. Qed.

(** Assigning the object behind slot [i]: with distinct slots, exactly
    the [i]-th step changes. *)
Lemma refers_update objs objs' elems steps i r (o : TodoStep) :
  NoDup elems →
  Forall2 (λ r s, objs !! r = Some s) elems steps →
  elems !! i = Some r →
  objs' !! r = Some o →
  (∀ r', r' ≠ r → objs' !! r' = objs !! r') →
  Forall2 (λ r s, objs' !! r = Some s) elems (<[i := o]> steps).
Proof.
  intros Hnd Href Hi Hr Hother.
  apply Forall2_same_length_lookup_2.
  { rewrite length_insert. by eapply Forall2_length. }
  intros j r' y Hj Hy.
  destruct (decide (j = i)) as [->|Hne].
  - rewrite Hi in Hj. injection Hj as <-.
    rewrite list_lookup_insert_eq in Hy; [congruence|].
    rewrite <- (Forall2_length _ _ _ Href). by eapply lookup_lt_Some.
  - rewrite list_lookup_insert_ne in Hy by done.
    rewrite Hother.
    + exact (Forall2_lookup_lr _ _ _ _ _ _ Href Hj Hy).
    + intros ->. apply Hne. exact (proj1 (NoDup_alt elems) Hnd _ _ _ Hj Hi).
Qed.

Lemma wf_new : Heap.wf Heap.new.
Proof.
  unfold Heap.wf, Heap.elements. simpl.
  split_and!; [lia|constructor|constructor].
Qed.

Lemma abs_new : Heap.abs Heap.new = TodoManager.new.
Proof. reflexivity. Qed.

Example wf_after_operations :
  Heap.wf (hrun [OpInitialize AB; OpAdd "C" "c"; OpDelete "1";
                 OpUpdateStatus "3" TodoStatus.MADE] Heap.new).
Proof. by apply (bool_decide_unpack _). Qed.

Lemma sim_initializeTodo entries w :
  Heap.wf (Heap.initializeTodo entries w)
  ∧ Heap.abs (Heap.initializeTodo entries w)
    = TodoManager.initializeTodo entries (Heap.abs w).
Proof.
  unfold Heap.initializeTodo, TodoManager.initializeTodo.
  set (fresh := JS.map _ entries).
  pose proof (refers_fresh (Heap.objects w) fresh) as Href.
  split.
  - unfold Heap.wf. rewrite elements_new_array. simpl. split_and!.
    + rewrite length_app. simpl. lia.
    + apply NoDup_seq.
    + by eapply refers_allocated.
  - erewrite abs_intro.
    2:{ rewrite elements_new_array. simpl. exact Href. }
    simpl. by rewrite length_seq.
Qed.

Lemma sim_addStep title description w :
  Heap.wf w →
  Heap.wf (Heap.addStep title description w).2
  ∧ Heap.abs (Heap.addStep title description w).2
    = (TodoManager.addStep title description (Heap.abs w)).2
  ∧ (Heap.addStep title description w).1
    = (TodoManager.addStep title description (Heap.abs w)).1.
Proof.
  intros Hwf. pose proof (wf_refers w Hwf) as Href.
  destruct Hwf as (Ha & Hnd & Hb).
  unfold Heap.addStep, TodoManager.addStep. cbn [fst snd].
  replace (Heap.nextId w) with (TodoManager.nextId (Heap.abs w)) at 1 2 3
    by done.
  set (new := TodoStep.mk _ title description _).
  assert (Forall2 (λ r s, (Heap.objects w ++ [new]) !! r = Some s)
            (Heap.elements (Heap.steps w) w ++ [length (Heap.objects w)])
            (TodoManager.steps (Heap.abs w) ++ [new])) as Href'.
  { apply Forall2_app; [by apply refers_weaken|].
    constructor; [|constructor]. by apply list_lookup_middle. }
  split_and!; [|erewrite abs_intro; [done|by rewrite elements_alter]|done].
  unfold Heap.wf. rewrite elements_alter by done. simpl. split_and!.
  - by rewrite length_alter.
  - apply NoDup_app. split_and!; [done| |apply NoDup_singleton].
    intros r Hr ->%list_elem_of_singleton.
    rewrite Forall_forall in Hb. specialize (Hb _ Hr). lia.
  - by eapply refers_allocated.
Qed.

Lemma sim_deleteStep id w :
  Heap.wf w →
  Heap.wf (Heap.deleteStep id w).2
  ∧ Heap.abs (Heap.deleteStep id w).2
    = (TodoManager.deleteStep id (Heap.abs w)).2
  ∧ (Heap.deleteStep id w).1 = (TodoManager.deleteStep id (Heap.abs w)).1.
Proof.
  intros Hwf. pose proof (wf_refers w Hwf) as Href.
  pose proof (find_refers _ _ _ id Href) as Hfind.
  destruct Hwf as (Ha & Hnd & Hb).
  unfold Heap.deleteStep, Heap.has_id, Heap.deref.
  destruct (list_find _ (Heap.elements _ _)) as [[i r]|] eqn:E1;
    destruct (list_find _ (TodoManager.steps _)) as [[j s]|] eqn:E2;
    try done.
  - destruct Hfind as [<- Hr].
    rewrite (deleteStep_found _ _ _ _ E2), (findIndex_Some _ _ _ _ E1).
    replace (Z.of_nat i =? -1)%Z with false
      by (symmetry; apply Z.eqb_neq; lia).
    simpl. rewrite Nat2Z.id.
    assert (Forall2 (λ r s, Heap.objects w !! r = Some s)
              (delete i (Heap.elements (Heap.steps w) w))
              (delete i (TodoManager.steps (Heap.abs w)))) as Href'
      by by apply Forall2_delete.
    split_and!; [|erewrite abs_intro; [done|]|done].
    + unfold Heap.wf. rewrite elements_alter by done. simpl.
      rewrite splice_one. split_and!.
      * by rewrite length_alter.
      * eapply sublist_NoDup; [done|apply sublist_delete].
      * by apply Forall_delete.
    + rewrite elements_alter by done. simpl. by rewrite splice_one.
  - rewrite (deleteStep_not_found _ _ E2), (findIndex_None _ _ E1).
    simpl. by split_and!.
Qed.

Lemma sim_updateStatus id status w :
  Heap.wf w →
  Heap.wf (Heap.updateStatus id status w).2
  ∧ Heap.abs (Heap.updateStatus id status w).2
    = (TodoManager.updateStatus id status (Heap.abs w)).2
  ∧ (Heap.updateStatus id status w).1
    = (TodoManager.updateStatus id status (Heap.abs w)).1.
Proof.
  intros Hwf. pose proof (wf_refers w Hwf) as Href.
  pose proof (find_refers _ _ _ id Href) as Hfind.
  destruct Hwf as (Ha & Hnd & Hb).
  unfold Heap.updateStatus, JS.find, Heap.has_id, Heap.deref.
  destruct (list_find _ (Heap.elements _ _)) as [[i r]|] eqn:E1;
    destruct (list_find _ (TodoManager.steps _)) as [[j s]|] eqn:E2;
    try done.
  - destruct Hfind as [<- Hr].
    rewrite (updateStatus_found _ _ _ _ _ E2). simpl.
    apply list_find_Some in E1 as (Hi & _ & _).
    assert (Forall2
              (λ r' s', alter (TodoStep.set_status status) r (Heap.objects w)
                          !! r' = Some s')
              (Heap.elements (Heap.steps w) w)
              (<[i := TodoStep.set_status status s]>
                 (TodoManager.steps (Heap.abs w)))) as Href'.
    { eapply refers_update; [done|exact Href|exact Hi| |].
      - by rewrite list_lookup_alter_eq, Hr.
      - intros r' Hne. by rewrite list_lookup_alter_ne. }
    split_and!; [|by erewrite abs_intro|done].
    unfold Heap.wf, Heap.elements in *. simpl.
    split_and!; [done|done|by rewrite length_alter].
  - rewrite (updateStatus_not_found _ _ _ E2). simpl. by split_and!.
Qed.

Lemma sim_clearTodo w :
  Heap.wf (Heap.clearTodo w)
  ∧ Heap.abs (Heap.clearTodo w) = TodoManager.clearTodo (Heap.abs w).
Proof.
  unfold Heap.clearTodo, TodoManager.clearTodo. split.
  - unfold Heap.wf. rewrite elements_new_array. simpl. split_and!.
    + rewrite length_app. simpl. lia.
    + constructor.
    + constructor.
  - unfold Heap.abs, Heap.contents. by rewrite elements_new_array.
Qed.

(** Each operation on references does, on the store that the heap stands
    for, what the value-level operation does. *)
Lemma sim_apply o w :
  Heap.wf w →
  Heap.wf (happly o w) ∧ Heap.abs (happly o w) = apply o (Heap.abs w).
Proof.
  intros Hwf. destruct o; simpl.
  - apply sim_initializeTodo.
  - by destruct (sim_addStep title description w Hwf) as (? & ? & _).
  - by destruct (sim_deleteStep id w Hwf) as (? & ? & _).
  - by destruct (sim_updateStatus id status w Hwf) as (? & ? & _).
  - apply sim_clearTodo.
Qed.

Lemma sim_run ops w :
  Heap.wf w →
  Heap.wf (hrun ops w) ∧ Heap.abs (hrun ops w) = run ops (Heap.abs w).
Proof.
  revert w. induction ops as [|o ops IH]; intros w Hwf; [done|].
  destruct (sim_apply o w Hwf) as [Hwf' Habs].
  simpl. rewrite <- Habs. by apply IH.
Qed.

Lemma sim_reachable ops :
  Heap.wf (hrun ops Heap.new)
  ∧ Heap.abs (hrun ops Heap.new) = run ops TodoManager.new.
Proof. rewrite <- abs_new. apply sim_run, wf_new. Qed.

End HeapModel.

(** ** What [list()] returns *)

Section Copy.

Implicit Types (w : Heap.t) (elems : list Heap.ref).

(** [getSteps] allocates a new array with the slots of the store array and
    changes nothing else. *)
Lemma getSteps_copy w :
  Heap.wf w →
  let a := (Heap.getSteps w).1 in
  let w1 := (Heap.getSteps w).2 in
  a = length (Heap.arrays w)
  ∧ Heap.steps w1 < a
  ∧ Heap.elements a w1 = Heap.elements (Heap.steps w) w
  ∧ Heap.elements (Heap.steps w1) w1 = Heap.elements (Heap.steps w) w
  ∧ Heap.wf w1
  ∧ Heap.abs w1 = Heap.abs w
  ∧ Heap.contents a w1 = TodoManager.getSteps (Heap.abs w).
Proof.
  intros (Ha & Hnd & Hb) a w1.
  assert (Heap.elements a w1 = Heap.elements (Heap.steps w) w) as E1.
  { unfold Heap.elements at 1. simpl. by rewrite list_lookup_middle. }
  assert (Heap.elements (Heap.steps w1) w1 = Heap.elements (Heap.steps w) w)
    as E2.
  { unfold Heap.elements. simpl. by rewrite lookup_app_l. }
  split_and!; try done.
  - unfold Heap.wf. rewrite E2. simpl. rewrite length_app. simpl.
    split_and!; [lia|done|done].
  - unfold Heap.abs, Heap.contents. by rewrite E2.
  - unfold Heap.contents. by rewrite E1.
Qed.

(** C3, as stated, does not hold.  After one [add], the caller assigns the
    status of the first step of the list that [getSteps] returned; the
    next [getSteps] returns the step with the new status: the store has
    changed. *)
Lemma returned_steps_are_shared :
  let w := hrun [OpAdd "A" "a"] Heap.new in
  let a := (Heap.getSteps w).1 in
  let w1 := (Heap.getSteps w).2 in
  let w2 :=
    Heap.mutate a (Heap.SetObject 0 (TodoStep.mk "1" "A" "a" "made")) w1 in
  Heap.contents a w1 = [TodoStep.mk "1" "A" "a" "not_made"]
  ∧ Heap.contents (Heap.getSteps w2).1 (Heap.getSteps w2).2
    = [TodoStep.mk "1" "A" "a" "made"]
  ∧ Heap.abs w2 ≠ Heap.abs w1
  ∧ ¬ (∀ (prefix : list Op) (mu : Heap.Mutation),
         let w := hrun prefix Heap.new in
         let a := (Heap.getSteps w).1 in
         let w1 := (Heap.getSteps w).2 in
         let w2 := Heap.mutate a mu w1 in
         Heap.contents (Heap.getSteps w2).1 (Heap.getSteps w2).2
         = Heap.contents a w1).
Proof.
  split_and!; [reflexivity|reflexivity|discriminate|].
  intros H.
  specialize (H [OpAdd "A" "a"]
                (Heap.SetObject 0 (TodoStep.mk "1" "A" "a" "made"))).
  discriminate H.
Qed.

(** C3, amended.  In every state that operations reach from a new store,
    [getSteps] returns a new array whose slots hold the store's step
    objects, in order, and does not change the store.  Whatever the caller
    then does to that array itself (its slots become any [elems]), the
    store is unchanged and the next [getSteps] returns the same contents
    as before.  The step objects are shared: assigning the object in slot
    [i] of the returned array changes the [i]-th record of the store. *)
Theorem returned_array_is_a_shallow_copy
  (prefix : list Op) (elems : list Heap.ref) (i : nat) (o : TodoStep) :
  let w := hrun prefix Heap.new in
  let a := (Heap.getSteps w).1 in
  let w1 := (Heap.getSteps w).2 in
  let w2 := Heap.mutate a (Heap.SetElements elems) w1 in
  let w3 := Heap.mutate a (Heap.SetObject i o) w1 in
  Heap.contents a w1 = TodoManager.getSteps (run prefix TodoManager.new)
  ∧ a ≠ Heap.steps w1
  ∧ Heap.elements a w1 = Heap.elements (Heap.steps w) w
  ∧ Heap.abs w1 = Heap.abs w
  ∧ Heap.abs w2 = Heap.abs w
  ∧ Heap.contents (Heap.getSteps w2).1 (Heap.getSteps w2).2
    = Heap.contents a w1
  ∧ Heap.contents (Heap.getSteps w3).1 (Heap.getSteps w3).2
    = <[i := o]> (Heap.contents a w1).
Proof.
  intros w a w1 w2 w3.
  destruct (sim_reachable prefix) as [Hwf Habs]. fold w in Hwf, Habs.
  destruct (getSteps_copy w Hwf) as (Ea & Hlt & E1 & E2 & Hwf1 & Habs1 & Hc).
  fold a w1 in Ea, Hlt, E1, E2, Hwf1, Habs1, Hc.
  assert (Heap.abs w2 = Heap.abs w ∧ Heap.wf w2) as [Habs2 Hwf2].
  { assert (Heap.elements (Heap.steps w2) w2
            = Heap.elements (Heap.steps w1) w1) as E.
    { unfold Heap.elements. simpl.
      rewrite list_lookup_insert_ne; [done|]. fold a. simpl in Hlt. lia. }
    split.
    - rewrite <- Habs1. unfold Heap.abs, Heap.contents. by rewrite E.
    - destruct Hwf1 as (H1 & H2 & H3). unfold Heap.wf. rewrite E.
      split_and!; [|done|done]. simpl. by rewrite length_insert. }
  pose proof (wf_refers w1 Hwf1) as Href.
  assert (Heap.abs w3
          = TodoManager.mk (<[i := o]> (TodoManager.steps (Heap.abs w1)))
              (Heap.nextId w1) ∧ Heap.wf w3) as [Habs3 Hwf3].
  { unfold w3, Heap.mutate. rewrite E1, <- E2.
    destruct (Heap.elements (Heap.steps w1) w1 !! i) as [r|] eqn:Ei.
    - destruct Hwf1 as (H1 & H2 & H3).
      assert (r < length (Heap.objects w1)) as Hr.
      { rewrite Forall_forall in H3. apply H3.
        by eapply list_elem_of_lookup_2. }
      assert (Forall2 (λ r' s', <[r := o]> (Heap.objects w1) !! r' = Some s')
                (Heap.elements (Heap.steps w1) w1)
                (<[i := o]> (TodoManager.steps (Heap.abs w1)))) as Href'.
      { eapply refers_update; [done|exact Href|exact Ei| |].
        - by apply list_lookup_insert_eq.
        - intros r' Hne. by apply list_lookup_insert_ne. }
      split; [by erewrite abs_intro|].
      unfold Heap.wf, Heap.elements in *. simpl.
      split_and!; [done|done|by rewrite length_insert].
    - split; [|done]. rewrite list_insert_ge; [done|].
      apply lookup_ge_None in Ei.
      by rewrite <- (Forall2_length _ _ _ Href). }
  split_and!.
  - rewrite Hc. by rewrite Habs.
  - simpl in *. lia.
  - exact E1.
  - exact Habs1.
  - exact Habs2.
  - destruct (getSteps_copy w2 Hwf2) as (_ & _ & _ & _ & _ & _ & ->).
    by rewrite Habs2, Hc.
  - destruct (getSteps_copy w3 Hwf3) as (_ & _ & _ & _ & _ & _ & ->).
    rewrite Habs3, Hc, Habs1. done.
Qed.

End Copy.

(** * Further properties of the code *)

(** ** [updateStatus] *)

Section UpdateStatus.

Implicit Types (m : TodoManager) (id : string) (status : TodoStatus.t).

(** What [updateStatus] does in any state. *)
Lemma updateStatus_spec id status m :
  (∃ i step,
     TodoManager.steps m !! i = Some step ∧ TodoStep.id step = id
     ∧ (∀ j s, TodoManager.steps m !! j = Some s → j < i → TodoStep.id s ≠ id)
     ∧ TodoManager.updateStatus id status m
       = (true,
          TodoManager.mk
            (<[i := TodoStep.set_status status step]> (TodoManager.steps m))
            (TodoManager.nextId m)))
  ∨ ((id ∉ held_ids m) ∧ TodoManager.updateStatus id status m = (false, m)).
Proof.
  destruct (list_find (λ s, String.eqb (TodoStep.id s) id = true)
              (TodoManager.steps m)) as [[i step]|] eqn:E.
  - left. exists i, step.
    destruct (find_id_Some _ _ _ _ E) as (Hi & Hid & Hfirst).
    split_and!; [done..|]. by apply updateStatus_found.
  - right. split; [by apply find_id_None|by apply updateStatus_not_found].
Qed.

(** Looking for an id finds the same position after the status of a
    record was assigned. *)
Lemma find_after_set_status id status m i step :
  list_find (λ s, String.eqb (TodoStep.id s) id = true) (TodoManager.steps m)
    = Some (i, step) →
  list_find (λ s, String.eqb (TodoStep.id s) id = true)
    (<[i := TodoStep.set_status status step]> (TodoManager.steps m))
  = Some (i, TodoStep.set_status status step).
Proof.
  intros (Hi & Hp & Hfirst)%list_find_Some. apply list_find_Some.
  split_and!.
  - apply list_lookup_insert_eq. by eapply lookup_lt_Some.
  - done.
  - intros j y Hj Hlt. rewrite list_lookup_insert_ne in Hj by lia.
    by eapply Hfirst.
Qed.

(** Looking for an id depends only on the ids, position by position. *)
Lemma find_same_ids id (l l' : list TodoStep) :
  TodoStep.id <$> l = TodoStep.id <$> l' →
  fst <$> list_find (λ s, String.eqb (TodoStep.id s) id = true) l
  = fst <$> list_find (λ s, String.eqb (TodoStep.id s) id = true) l'.
Proof.
  revert l'. induction l as [|x l IH]; intros [|y l'] E; try done.
  injection E as Exy E. specialize (IH _ E). simpl. rewrite <- Exy.
  destruct (decide (String.eqb (TodoStep.id x) id = true)); [done|].
  destruct (list_find _ l) as [[i s]|];
    destruct (list_find _ l') as [[j s']|]; simpl in *; congruence.
Qed.

Lemma held_ids_set_status m i step status :
  TodoManager.steps m !! i = Some step →
  TodoStep.id <$> <[i := TodoStep.set_status status step]>
                    (TodoManager.steps m)
  = TodoStep.id <$> TodoManager.steps m.
Proof.
  intros Hi. rewrite list_fmap_insert. simpl.
  apply list_insert_id. by rewrite list_lookup_fmap, Hi.
Qed.

(** X1.  In any state [updateStatus(id, status)] answers whether a record
    with that id is held and changes nothing but statuses: the list keeps
    its length and order, every record keeps its id, title and
    description, the counter is unchanged, and a record with another id
    keeps its status too.  In a state that operations reach from a new
    store, after a [true] answer exactly the records with that id (there
    is one) have the new status. *)
Theorem updateStatus_changes_only_that_status :
  (∀ m id status,
     let r := TodoManager.updateStatus id status m in
     r.1 = bool_decide (id ∈ held_ids m)
     ∧ TodoManager.nextId r.2 = TodoManager.nextId m
     ∧ TodoStep.id <$> TodoManager.steps r.2
       = TodoStep.id <$> TodoManager.steps m
     ∧ TodoStep.title <$> TodoManager.steps r.2
       = TodoStep.title <$> TodoManager.steps m
     ∧ TodoStep.description <$> TodoManager.steps r.2
       = TodoStep.description <$> TodoManager.steps m
     ∧ (∀ i s, TodoManager.steps m !! i = Some s → TodoStep.id s ≠ id →
          TodoManager.steps r.2 !! i = Some s)
     ∧ (r.1 = false → r.2 = m))
  ∧ (∀ (prefix : list Op) id status,
       let m := run prefix TodoManager.new in
       let r := TodoManager.updateStatus id status m in
       TodoManager.steps r.2
       = (λ s, if decide (TodoStep.id s = id)
               then TodoStep.set_status status s else s)
         <$> TodoManager.steps m).
Proof.
  split.
  - intros m id status r. unfold r.
    destruct (updateStatus_spec id status m)
      as [(i & step & Hi & Hid & _ & ->)|[Hn ->]]; simpl.
    + split_and!; try done.
      * symmetry. apply bool_decide_eq_true. unfold held_ids.
        apply list_elem_of_fmap. exists step. split; [done|].
        by eapply list_elem_of_lookup_2.
      * by apply held_ids_set_status.
      * rewrite list_fmap_insert. simpl.
        apply list_insert_id. by rewrite list_lookup_fmap, Hi.
      * rewrite list_fmap_insert. simpl.
        apply list_insert_id. by rewrite list_lookup_fmap, Hi.
      * intros j s Hj Hne. rewrite list_lookup_insert_ne; [done|].
        intros <-. congruence.
    + split_and!; try done. symmetry. by apply bool_decide_eq_false.
  - intros prefix id status m r. unfold r.
    assert (NoDup (held_ids m)) as Hnd by apply (Inv_reachable prefix).
    destruct (updateStatus_spec id status m)
      as [(i & step & Hi & Hid & _ & ->)|[Hn ->]]; simpl.
    + apply list_eq. intros j. rewrite list_lookup_fmap.
      destruct (decide (j = i)) as [->|Hne].
      * rewrite list_lookup_insert_eq by by eapply lookup_lt_Some.
        rewrite Hi. simpl. by rewrite decide_True.
      * rewrite list_lookup_insert_ne by done.
        destruct (TodoManager.steps m !! j) as [s|] eqn:Hj; [|done].
        simpl. rewrite decide_False; [done|]. intros E. apply Hne.
        eapply unique_match; eauto. congruence.
    + symmetry. etransitivity; [|apply list_fmap_id].
      apply list_fmap_ext. intros j s Hj. simpl.
      rewrite decide_False; [done|]. intros E. apply Hn.
      unfold held_ids. apply list_elem_of_fmap. exists s.
      split; [done|]. by eapply list_elem_of_lookup_2.
Qed.

(** X2.  The last status assigned to an id wins: a second
    [updateStatus] on the same id gives the state and the answer that it
    gives without the first; in particular repeating an update changes
    nothing more. *)
Theorem updateStatus_last_wins m id status1 status2 :
  TodoManager.updateStatus id status2
    (TodoManager.updateStatus id status1 m).2
  = TodoManager.updateStatus id status2 m.
Proof.
  destruct (list_find (λ s, String.eqb (TodoStep.id s) id = true)
              (TodoManager.steps m)) as [[i step]|] eqn:E.
  - rewrite (updateStatus_found _ status1 _ _ _ E). simpl.
    pose proof (find_after_set_status _ status1 _ _ _ E) as E'.
    rewrite (updateStatus_found id status2
               (TodoManager.mk _ (TodoManager.nextId m)) i _ E').
    rewrite (updateStatus_found _ status2 _ _ _ E). simpl.
    by rewrite list_insert_insert_eq.
  - by rewrite (updateStatus_not_found _ status1 _ E).
Qed.

(** X3.  Updates of two different ids commute: both orders give the same
    store, and each update gives the answer it gives alone. *)
Theorem updateStatus_commutes m id1 id2 status1 status2 :
  id1 ≠ id2 →
  let m1 := (TodoManager.updateStatus id1 status1 m).2 in
  let m2 := (TodoManager.updateStatus id2 status2 m).2 in
  (TodoManager.updateStatus id2 status2 m1).2
  = (TodoManager.updateStatus id1 status1 m2).2
  ∧ (TodoManager.updateStatus id2 status2 m1).1
    = (TodoManager.updateStatus id2 status2 m).1
  ∧ (TodoManager.updateStatus id1 status1 m2).1
    = (TodoManager.updateStatus id1 status1 m).1.
Proof.
  intros Hne m1 m2.
  assert (∀ ida idb sa sb,
            ida ≠ idb →
            TodoManager.updateStatus idb sb
              (TodoManager.updateStatus ida sa m).2
            = ((TodoManager.updateStatus idb sb m).1,
               TodoManager.mk
                 (match list_find (λ s, String.eqb (TodoStep.id s) ida = true)
                          (TodoManager.steps m) with
                  | Some (i, s) => <[i := TodoStep.set_status sa s]>
                  | None => λ l, l
                  end (TodoManager.steps (TodoManager.updateStatus idb sb m).2))
                 (TodoManager.nextId m))) as Hgen.
  { intros ida idb sa sb Hab.
    destruct (list_find (λ s, String.eqb (TodoStep.id s) ida = true)
                (TodoManager.steps m)) as [[i s]|] eqn:Ea.
    - rewrite (updateStatus_found _ sa _ _ _ Ea). simpl.
      destruct (find_id_Some _ _ _ _ Ea) as (Hi & Hida & _).
      pose proof (find_same_ids idb _ _
                    (held_ids_set_status m i s sa Hi)) as Hsame.
      destruct (list_find (λ s, String.eqb (TodoStep.id s) idb = true)
                  (TodoManager.steps m)) as [[j t]|] eqn:Eb.
      + destruct (list_find _ (<[i:=_]> _)) as [[j' t']|] eqn:Eb';
          [|done]. simpl in Hsame. injection Hsame as ->.
        destruct (find_id_Some _ _ _ _ Eb) as (Hj & Hidb & _).
        assert (i ≠ j) as Hij by (intros ->; congruence).
        rewrite (updateStatus_found idb sb
                   (TodoManager.mk _ (TodoManager.nextId m)) j t' Eb').
        rewrite (updateStatus_found _ sb _ _ _ Eb). simpl.
        apply list_find_Some in Eb' as (Hj' & _ & _).
        rewrite list_lookup_insert_ne in Hj' by done.
        assert (t' = t) as -> by congruence.
        by rewrite list_insert_insert_ne.
      + destruct (list_find _ (<[i:=_]> _)) as [[j' t']|] eqn:Eb';
          [done|].
        rewrite (updateStatus_not_found idb sb
                   (TodoManager.mk _ (TodoManager.nextId m)) Eb').
        by rewrite (updateStatus_not_found _ sb _ Eb).
    - rewrite (updateStatus_not_found _ sa _ Ea). simpl.
      destruct (TodoManager.updateStatus idb sb m) as [b m'] eqn:Eb.
      simpl. f_equal. destruct m' as [l n]. simpl. f_equal.
      pose proof (nextId_updateStatus idb sb m) as Hn.
      by rewrite Eb in Hn. }
  unfold m1, m2.
  rewrite (Hgen id1 id2 status1 status2 Hne).
  rewrite (Hgen id2 id1 status2 status1 (not_eq_sym Hne)). simpl.
  split_and!; [|done|done]. f_equal.
  destruct (list_find (λ s, String.eqb (TodoStep.id s) id1 = true)
              (TodoManager.steps m)) as [[i s]|] eqn:E1;
    destruct (list_find (λ s, String.eqb (TodoStep.id s) id2 = true)
                (TodoManager.steps m)) as [[j t]|] eqn:E2.
  - rewrite (updateStatus_found _ status1 _ _ _ E1),
      (updateStatus_found _ status2 _ _ _ E2). simpl.
    destruct (find_id_Some _ _ _ _ E1) as (Hi & Hid1 & _).
    destruct (find_id_Some _ _ _ _ E2) as (Hj & Hid2 & _).
    apply list_insert_insert_ne. intros ->. congruence.
  - by rewrite (updateStatus_found _ status1 _ _ _ E1),
      (updateStatus_not_found _ status2 _ E2).
  - by rewrite (updateStatus_not_found _ status1 _ E1),
      (updateStatus_found _ status2 _ _ _ E2).
  - by rewrite (updateStatus_not_found _ status1 _ E1),
      (updateStatus_not_found _ status2 _ E2).
Qed.

Lemma updateStatus_commutes_witness :
  let m := TodoManager.initializeTodo AB TodoManager.new in
  (TodoManager.updateStatus "2" "made"
     (TodoManager.updateStatus "1" "in_progress" m).2).2
  = (TodoManager.updateStatus "1" "in_progress"
       (TodoManager.updateStatus "2" "made" m).2).2.
Proof.
  apply (updateStatus_commutes
           (TodoManager.initializeTodo AB TodoManager.new)
           "1" "2" "in_progress" "made").
  discriminate.
Defined.

End UpdateStatus.

(** ** The id that [add] returns *)

Section AddedId.

Implicit Types (m : TodoManager) (id : string).

(** In a reachable state the id about to be assigned is not held. *)
Lemma next_id_not_held (prefix : list Op) :
  let m := run prefix TodoManager.new in
  JS.toString (TodoManager.nextId m) ∉ held_ids m.
Proof.
  intros m Hin. destruct (Inv_reachable prefix) as (_ & _ & Hb).
  fold m in Hb. rewrite Forall_forall in Hb.
  destruct (Hb _ Hin) as (k & E%toString_inj & Hk). lia.
Qed.

Lemma find_added (prefix : list Op) title description :
  let m := run prefix TodoManager.new in
  let step := TodoStep.mk (JS.toString (TodoManager.nextId m)) title
                description TodoStatus.NOT_MADE in
  list_find (λ s, String.eqb (TodoStep.id s)
                    (JS.toString (TodoManager.nextId m)) = true)
    (TodoManager.steps m ++ [step])
  = Some (length (TodoManager.steps m), step).
Proof.
  intros m step.
  assert (list_find (λ s, String.eqb (TodoStep.id s)
                            (JS.toString (TodoManager.nextId m)) = true)
            (TodoManager.steps m) = None) as HN.
  { destruct (list_find _ (TodoManager.steps m)) as [[i s]|] eqn:E; [|done].
    destruct (find_id_Some _ _ _ _ E) as (Hi & Hid & _).
    destruct (next_id_not_held prefix). fold m. unfold held_ids.
    apply list_elem_of_fmap. exists s. split; [done|].
    by eapply list_elem_of_lookup_2. }
  rewrite (list_find_app_r _ _ _ HN). simpl.
  rewrite decide_True by apply String.eqb_refl. done.
Qed.

(** X4.  In every state that operations reach from a new store, the id
    that [add] returns designates the record just added and no other:
    [delete] of that id right away answers [true] and gives back the list
    as it was before the [add] (the counter stays advanced by one), and
    [updateStatus] of that id changes the status of the added record
    only. *)
Theorem added_id_designates_added_record
  (prefix : list Op) (title description : string) (status : TodoStatus.t) :
  let m := run prefix TodoManager.new in
  let a := TodoManager.addStep title description m in
  TodoManager.steps a.2
  = TodoManager.steps m
    ++ [TodoStep.mk a.1 title description TodoStatus.NOT_MADE]
  ∧ TodoManager.deleteStep a.1 a.2
    = (true, TodoManager.mk (TodoManager.steps m) (TodoManager.nextId m + 1))
  ∧ TodoManager.updateStatus a.1 status a.2
    = (true,
       TodoManager.mk
         (TodoManager.steps m ++ [TodoStep.mk a.1 title description status])
         (TodoManager.nextId m + 1)).
Proof.
  intros m a. pose proof (find_added prefix title description) as E.
  fold m in E. cbv zeta in E. split_and!.
  - reflexivity.
  - unfold a, TodoManager.addStep, JS.push. simpl.
    rewrite (deleteStep_found _ (TodoManager.mk _ _) _ _ E). simpl.
    by rewrite delete_middle, app_nil_r.
  - unfold a, TodoManager.addStep, JS.push. simpl.
    rewrite (updateStatus_found _ status (TodoManager.mk _ _) _ _ E). simpl.
    do 2 f_equal.
    pose proof (insert_app_r (TodoManager.steps m)
                  [TodoStep.mk (JS.toString (TodoManager.nextId m)) title
                     description TodoStatus.NOT_MADE] 0
                  (TodoStep.mk (JS.toString (TodoManager.nextId m)) title
                     description status)) as H.
    rewrite Nat.add_0_r in H. exact H.
Qed.

End AddedId.

(** ** What the store always satisfies *)

Section Always.

Implicit Types (m : TodoManager).

Lemma length_apply_below o m :
  (N.of_nat (length (TodoManager.steps m)) < TodoManager.nextId m)%N →
  (N.of_nat (length (TodoManager.steps (apply o m)))
   < TodoManager.nextId (apply o m))%N.
Proof.
  intros H. destruct o; simpl.
  - unfold JS.map. rewrite !length_imap. lia.
  - unfold JS.push. rewrite length_app. simpl. lia.
  - rewrite nextId_deleteStep.
    pose proof (held_ids_deleteStep id m) as Hs%sublist_length.
    unfold held_ids in Hs. rewrite !length_fmap in Hs. lia.
  - rewrite nextId_updateStatus.
    pose proof (f_equal length (held_ids_updateStatus id status m)) as Hl.
    unfold held_ids in Hl. rewrite !length_fmap in Hl. lia.
  - lia.
Qed.

Lemma length_run_below ops m :
  (N.of_nat (length (TodoManager.steps m)) < TodoManager.nextId m)%N →
  (N.of_nat (length (TodoManager.steps (run ops m)))
   < TodoManager.nextId (run ops m))%N.
Proof.
  revert m. induction ops as [|o ops IH]; intros m H; [done|].
  simpl. by apply IH, length_apply_below.
Qed.

(** X5.  In every state that [initialize], [add], [delete],
    [updateStatus] and [clear] reach from a new store: every id held is
    the decimal numeral of a number from 1 to the counter minus 1 (so it
    is never empty and never "0"), the ids are pairwise distinct, and the
    store holds fewer records than the value of the counter. *)
Theorem store_invariant (ops : list Op) :
  let m := run ops TodoManager.new in
  NoDup (held_ids m)
  ∧ Forall (λ id, ∃ k, id_value id = Some k ∧ id = JS.toString k
                     ∧ (1 ≤ k < TodoManager.nextId m)%N ∧ id ≠ "" ∧ id ≠ "0")
      (held_ids m)
  ∧ (N.of_nat (length (TodoManager.steps m)) < TodoManager.nextId m)%N.
Proof.
  intros m. destruct (Inv_reachable ops) as (Hnd & H1 & Hb). fold m in Hb.
  split_and!; [done| |by apply length_run_below].
  eapply Forall_impl; [exact Hb|]. intros id (k & -> & Hk). exists k.
  split_and!; [apply id_value_toString|done|lia|lia|
               apply toString_nonempty|].
  change "0" with (JS.toString 0). intros E%toString_inj. lia.
Qed.

End Always.

(** ** Requests in sequence, and the reading actions *)

Section Serving.

Implicit Types (p : Params.t) (m : TodoManager).

(** After [delete(id)] in a reachable state the id is not held and a
    second [delete(id)] finds nothing. *)
Lemma delete_removes_the_match_aux (prefix : list Op) (id : string) :
  let m := run prefix TodoManager.new in
  (id ∉ held_ids (TodoManager.deleteStep id m).2)
  ∧ TodoManager.deleteStep id (TodoManager.deleteStep id m).2
    = (false, (TodoManager.deleteStep id m).2).
Proof.
  intros m.
  assert (id ∉ held_ids (TodoManager.deleteStep id m).2) as Hgone.
  { apply deleted_id_gone. apply (Inv_reachable prefix). }
  split; [done|].
  destruct (deleteStep_spec id (TodoManager.deleteStep id m).2)
    as [(i & step & Hi & Hid & _)|[_ E]]; [|done].
  destruct Hgone. unfold held_ids. apply list_elem_of_fmap.
  exists step. split; [done|]. by eapply list_elem_of_lookup_2.
Qed.

(** A request leaves the store as it was or does one operation on it. *)
Lemma execute_step p m :
  (TodoTool.execute p m).2 = m ∨ ∃ o, (TodoTool.execute p m).2 = apply o m.
Proof.
  unfold TodoTool.execute, TodoTool.execute_try.
  destruct (String.eqb (Params.action p) "initialize").
  { destruct (Params.steps p) as [| |a]; simpl; [by left..|].
    right. by exists (OpInitialize a). }
  destruct (String.eqb (Params.action p) "add").
  { destruct (negb _ || negb _); simpl; [by left|]. right.
    by exists (OpAdd (default "" (Params.title p))
                 (default "" (Params.description p))). }
  destruct (String.eqb (Params.action p) "delete").
  { destruct (negb _); simpl; [by left|]. right.
    exists (OpDelete (default "" (Params.step_id p))). simpl.
    by destruct (TodoManager.deleteStep _ m) as [[|] m']. }
  destruct (String.eqb (Params.action p) "update_status").
  { destruct (negb _ || negb _); simpl; [by left|]. right.
    exists (OpUpdateStatus (default "" (Params.step_id p))
              (default "" (Params.status p))). simpl.
    by destruct (TodoManager.updateStatus _ _ m) as [[|] m']. }
  destruct (String.eqb (Params.action p) "get_steps"); [by left|].
  destruct (String.eqb (Params.action p) "clear"); [|by left].
  right. by exists OpClear.
Qed.

Lemma serve_run (requests : list Params.t) m :
  length (serve requests m).1 = length requests
  ∧ ∃ ops, (serve requests m).2 = run ops m ∧ length ops ≤ length requests.
Proof.
  revert m. induction requests as [|p requests IH]; intros m.
  { split; [done|]. by exists []. }
  simpl. destruct (TodoTool.execute p m) as [r m1] eqn:E.
  destruct (IH m1) as (Hl & ops & Hops & Hlen).
  destruct (serve requests m1) as [rs m2]. simpl in *. split; [by f_equal|].
  pose proof (execute_step p m) as Hstep. rewrite E in Hstep. simpl in Hstep.
  destruct Hstep as [->|[o ->]].
  - exists ops. split; [done|lia].
  - exists (o :: ops). split; [done|simpl; lia].
Qed.

(** X6.  Whatever requests the tool serves, starting on a new store,
    well-formed or not: there is one response per request, the store is
    always in a state that the store operations reach from a new store,
    and so the ids it holds are pairwise distinct and none is empty. *)
Theorem requests_keep_the_store_reachable (requests : list Params.t) :
  let r := serve requests TodoManager.new in
  length r.1 = length requests
  ∧ (∃ ops, r.2 = run ops TodoManager.new ∧ length ops ≤ length requests)
  ∧ NoDup (held_ids r.2)
  ∧ Forall (λ id, id ≠ "") (held_ids r.2)
  ∧ (1 ≤ TodoManager.nextId r.2)%N.
Proof.
  intros r. destruct (serve_run requests TodoManager.new)
    as (Hl & ops & Hops & Hlen). fold r in Hl, Hops.
  split_and!; [done|by exists ops|..]; rewrite Hops;
    destruct (Inv_reachable ops) as (Hnd & H1 & Hb); try done.
  eapply Forall_impl; [exact Hb|]. intros id (k & -> & _).
  apply toString_nonempty.
Qed.

(** A rendering of a list that is not empty starts with the first byte
    of a glyph. *)
Lemma rendering_first_byte m :
  TodoManager.steps m ≠ [] →
  ∃ rest, TodoManager.getStepsForDisplay m = String (ascii_of_nat 195) rest.
Proof.
  intros Hne. rewrite getStepsForDisplay_join.
  destruct (TodoManager.steps m) as [|step l]; [done|].
  assert (∃ rest, TodoManager.displayLine step
                  = String (ascii_of_nat 195) rest) as [rest Hrest].
  { unfold TodoManager.displayLine.
    destruct (getStatusIcon_cases (TodoStep.status step)) as [->|[->| ->]];
      eexists; reflexivity. }
  rewrite fmap_cons, Hrest.
  destruct (TodoManager.displayLine <$> l) as [|y k]; [by exists rest|].
  rewrite join_cons. eexists. reflexivity.
Qed.

(** X7.  The [get_steps] action, whatever else the request carries and
    whatever the store holds: it succeeds, leaves the store unchanged,
    and carries the list and its rendering.  The text to show on screen
    is "No TODO steps" exactly when the store is empty, is the rendering
    otherwise, and is never the empty string. *)
Theorem get_steps_only_reads p m :
  Params.action p = "get_steps" →
  let r := TodoTool.execute p m in
  r.2 = m
  ∧ ToolResult.llmContent r.1
    = Payload.mk true None None (Some (TodoManager.steps m)) None
        (Some (TodoManager.getStepsForDisplay m))
  ∧ (ToolResult.returnDisplay r.1 = "No TODO steps"
     ↔ TodoManager.steps m = [])
  ∧ (TodoManager.steps m ≠ [] →
     ToolResult.returnDisplay r.1 = TodoManager.getStepsForDisplay m)
  ∧ ToolResult.returnDisplay r.1 ≠ "".
Proof.
  intros Ha r. unfold r, TodoTool.execute, TodoTool.execute_try.
  rewrite Ha. simpl. unfold TodoManager.getSteps.
  destruct (TodoManager.steps m) as [|step l] eqn:El; simpl.
  - split_and!; done.
  - assert (TodoManager.steps m ≠ []) as Hne by by rewrite El.
    destruct (rendering_first_byte m Hne) as [rest ->].
    split_and!; done.
Qed.

Lemma get_steps_only_reads_witness :
  let p := Params.mk "get_steps" Params.StepsAbsent (Some "1") (Some "x")
             None (Some "made") in
  let m := TodoManager.initializeTodo AB TodoManager.new in
  (TodoTool.execute p m).2 = m
  ∧ ToolResult.returnDisplay (TodoTool.execute p m).1 ≠ "".
Proof.
  destruct (get_steps_only_reads
              (Params.mk "get_steps" Params.StepsAbsent (Some "1") (Some "x")
                 None (Some "made"))
              (TodoManager.initializeTodo AB TodoManager.new) eq_refl)
    as (H1 & _ & _ & _ & H2).
  by split.
Defined.

(** X8.  A [delete] request repeated right away never removes a second
    record: on a store that operations reach from a new one, the second
    answer is a failure and the store is as the first request left it.
    When the first request succeeded, its id was held before, is held no
    more, and the second answer is "Step <id> not found". *)
Theorem delete_request_repeated (prefix : list Op) p :
  Params.action p = "delete" →
  let m := run prefix TodoManager.new in
  let r1 := TodoTool.execute p m in
  let r2 := TodoTool.execute p r1.2 in
  Payload.success (ToolResult.llmContent r2.1) = false
  ∧ r2.2 = r1.2
  ∧ (Payload.success (ToolResult.llmContent r1.1) = true →
     ∃ id, Params.step_id p = Some id
       ∧ id ∈ held_ids m
       ∧ (id ∉ held_ids r1.2)
       ∧ r1.2 = (TodoManager.deleteStep id m).2
       ∧ r2.1 = TodoTool.failed ("Step " +:+ id +:+ " not found")).
Proof.
  intros Ha m r1 r2.
  assert (∀ m', TodoTool.execute p m'
                = if negb (JS.truthy (Params.step_id p))
                  then (TodoTool.failed "Step ID required for delete action",
                        m')
                  else
                    let id := default "" (Params.step_id p) in
                    let d := TodoManager.deleteStep id m' in
                    if d.1
                    then (ToolResult.mk
                            (Payload.ok ("Deleted step " +:+ id))
                            ("Deleted step " +:+ id), d.2)
                    else (TodoTool.failed ("Step " +:+ id +:+ " not found"),
                          d.2)) as Hex.
  { intros m'. unfold TodoTool.execute, TodoTool.execute_try. rewrite Ha.
    simpl. destruct (negb _); [done|].
    destruct (TodoManager.deleteStep _ m') as [[|] ?]; done. }
  unfold r2, r1. rewrite !Hex.
  destruct (JS.truthy (Params.step_id p)) eqn:Et; simpl.
  2:{ split_and!; done. }
  apply truthy_Some in Et as (id & Eid & Hne). rewrite Eid. simpl.
  destruct delete_removes_the_match_aux with (prefix := prefix) (id := id)
    as (Hgone & Hsecond). fold m in Hgone, Hsecond.
  pose proof (deleteStep_result id m) as Hres.
  destruct (TodoManager.deleteStep id m) as [d m1] eqn:Ed. simpl in *.
  subst d. case_bool_decide as Hin; simpl.
  - rewrite Hsecond. simpl. split_and!; try done.
    intros _. exists id. rewrite Ed. by split_and!.
  - pose proof (deleteStep_false _ _ _ Ed) as ->. rewrite Ed. simpl.
    split_and!; done.
Qed.

Lemma delete_request_repeated_witness :
  let p := Params.mk "delete" Params.StepsAbsent (Some "1") None None None in
  let m := run [OpInitialize AB] TodoManager.new in
  Payload.success (ToolResult.llmContent (TodoTool.execute p m).1) = true
  ∧ (TodoTool.execute p (TodoTool.execute p m).2).1
    = TodoTool.failed "Step 1 not found"
  ∧ (TodoTool.execute p (TodoTool.execute p m).2).2
    = (TodoTool.execute p m).2.
Proof.
  destruct (delete_request_repeated [OpInitialize AB]
              (Params.mk "delete" Params.StepsAbsent (Some "1") None None
                 None) eq_refl) as (_ & H2 & _).
  split_and!; [reflexivity|reflexivity|exact H2].
Defined.

End Serving.

(** ** The rendering and [add] *)

Section DisplayGrows.

Lemma string_app_assoc (s1 s2 s3 : string) :
  (s1 +:+ s2) +:+ s3 = s1 +:+ (s2 +:+ s3).
Proof.
  induction s1 as [|c s1 IH]; [done|].
  change (String c ((s1 +:+ s2) +:+ s3) = String c (s1 +:+ (s2 +:+ s3))).
  by rewrite IH.
Qed.

Lemma join_snoc sep (l : list string) x :
  l ≠ [] → JS.join sep (l ++ [x]) = JS.join sep l +:+ sep +:+ x.
Proof.
  induction l as [|y l IH]; [done|]. intros _.
  destruct l as [|z l]; [done|].
  change (JS.join sep ((y :: z :: l) ++ [x])
          = JS.join sep (y :: z :: l) +:+ sep +:+ x)
    with (y +:+ sep +:+ JS.join sep ((z :: l) ++ [x])
          = (y +:+ sep +:+ JS.join sep (z :: l)) +:+ sep +:+ x).
  rewrite (IH ltac:(done)).
  by rewrite !string_app_assoc.
Qed.

(** X9.  [add] grows the rendering by one line at the end: on an empty
    store the rendering becomes the line of the new step, otherwise it is
    the rendering before, a line feed, and the line of the new step.  The
    line is the [not_made] glyph, a space and the title. *)
Theorem display_after_add (m : TodoManager) (title description : string) :
  TodoManager.getStepsForDisplay
    (TodoManager.addStep title description m).2
  = if decide (TodoManager.steps m = [])
    then TodoManager.ICON_NOT_MADE +:+ " " +:+ title
    else TodoManager.getStepsForDisplay m +:+ String LF ""
         +:+ TodoManager.ICON_NOT_MADE +:+ " " +:+ title.
Proof.
  rewrite !getStepsForDisplay_join.
  unfold TodoManager.addStep, JS.push. simpl. rewrite fmap_app. simpl.
  destruct (decide (TodoManager.steps m = [])) as [->|Hne]; [done|].
  rewrite join_snoc; [done|]. by destruct (TodoManager.steps m).
Qed.

End DisplayGrows.

(** ** A list obtained earlier *)

Section EarlierList.

Implicit Types (w : Heap.t) (a : Heap.ref) (o : Op).

(** An operation of the store changes no array but [this.steps]. *)
Lemma elements_other_array o w a :
  a < length (Heap.arrays w) → a ≠ Heap.steps w →
  Heap.elements a (happly o w) = Heap.elements a w.
Proof.
  intros Ha Hne. unfold Heap.elements. destruct o; simpl.
  - by rewrite lookup_app_l.
  - by rewrite list_lookup_alter_ne.
  - unfold Heap.deleteStep. destruct (negb _); simpl; [|done].
    by rewrite list_lookup_alter_ne.
  - unfold Heap.updateStatus. by destruct (JS.find _ _) as [[i r]|].
  - by rewrite lookup_app_l.
Qed.

(** Apart from [updateStatus], an operation of the store changes no
    object that exists. *)
Lemma objects_kept o w r :
  (∀ id status, o ≠ OpUpdateStatus id status) →
  r < length (Heap.objects w) →
  Heap.objects (happly o w) !! r = Heap.objects w !! r.
Proof.
  intros Ho Hr. destruct o; simpl.
  - by rewrite lookup_app_l.
  - by rewrite lookup_app_l.
  - unfold Heap.deleteStep. by destruct (negb _).
  - by destruct (Ho id status).
  - done.
Qed.

Lemma omap_lookup_ext (objs objs' : list TodoStep) (elems : list Heap.ref) :
  Forall (λ r, objs' !! r = objs !! r) elems →
  omap (λ r, objs' !! r) elems = omap (λ r, objs !! r) elems.
Proof.
  induction 1 as [|r elems Hr _ IH]; [done|].
  simpl. rewrite Hr. destruct (objs !! r); [f_equal|]; exact IH.
Qed.

Lemma arrays_grow o w :
  length (Heap.arrays w) ≤ length (Heap.arrays (happly o w)).
Proof.
  destruct o; simpl.
  - rewrite length_app. lia.
  - by rewrite length_alter.
  - unfold Heap.deleteStep. destruct (negb _); simpl; [|done].
    by rewrite length_alter.
  - unfold Heap.updateStatus. by destruct (JS.find _ _) as [[i r]|].
  - rewrite length_app. lia.
Qed.

Lemma steps_after o w :
  Heap.steps (happly o w) = Heap.steps w
  ∨ Heap.steps (happly o w) = length (Heap.arrays w).
Proof.
  destruct o; simpl.
  - by right.
  - by left.
  - unfold Heap.deleteStep. by destruct (negb _); left.
  - unfold Heap.updateStatus. by destruct (JS.find _ _) as [[i r]|]; left.
  - by right.
Qed.

Lemma objects_grow o w :
  length (Heap.objects w) ≤ length (Heap.objects (happly o w)).
Proof.
  destruct o; simpl.
  - rewrite length_app. lia.
  - rewrite length_app. lia.
  - unfold Heap.deleteStep. by destruct (negb _).
  - unfold Heap.updateStatus.
    destruct (JS.find _ _) as [[i r]|]; simpl; [|done].
    by rewrite length_alter.
  - done.
Qed.

(** Operations other than [updateStatus], in any number, leave an array
    that is not [this.steps], and what it shows, as they were. *)
Lemma earlier_list_kept (ops : list Op) w a :
  a < length (Heap.arrays w) → a ≠ Heap.steps w →
  Forall (λ r, r < length (Heap.objects w)) (Heap.elements a w) →
  forallb (λ o, negb (is_update o)) ops = true →
  Heap.contents a (hrun ops w) = Heap.contents a w.
Proof.
  revert w. induction ops as [|o ops IH]; intros w Ha Hne Hb Hops; [done|].
  simpl in Hops. apply andb_true_iff in Hops as [Ho%negb_true_iff Hops].
  assert (∀ id status, o ≠ OpUpdateStatus id status) as Ho'.
  { intros id status ->. discriminate. }
  pose proof (elements_other_array o w a Ha Hne) as Eel.
  pose proof (arrays_grow o w) as Hag.
  pose proof (objects_grow o w) as Hog.
  change (hrun (o :: ops) w) with (hrun ops (happly o w)).
  rewrite IH; [| |destruct (steps_after o w) as [->| ->]| |done].
  - unfold Heap.contents, Heap.deref. rewrite Eel.
    apply omap_lookup_ext. eapply Forall_impl; [exact Hb|].
    intros r Hr. exact (objects_kept o w r Ho' Hr).
  - lia.
  - done.
  - lia.
  - rewrite Eel. eapply Forall_impl; [exact Hb|]. intros r Hr. simpl in *.
    lia.
Qed.

(** X10.  A list that [getSteps] returned earlier, in every state that
    operations reach from a new store.  After any sequence of later
    [add], [delete], [clear] and [initialize] operations it still shows
    the records it had, in the same order.  When the next operation after
    [getSteps] is an [updateStatus], the update shows in the list: its
    elements are the store's own objects, and it then shows the store's
    list after the update. *)
Theorem earlier_list_after_operation (prefix ops : list Op) (o : Op) :
  let w := hrun prefix Heap.new in
  let m := run prefix TodoManager.new in
  let a := (Heap.getSteps w).1 in
  let w1 := (Heap.getSteps w).2 in
  Heap.contents a w1 = TodoManager.steps m
  ∧ Heap.abs (happly o w1) = apply o m
  ∧ Heap.contents a (happly o w1)
    = match o with
      | OpUpdateStatus id status =>
          TodoManager.steps (TodoManager.updateStatus id status m).2
      | _ => TodoManager.steps m
      end
  ∧ (forallb (λ o, negb (is_update o)) ops = true →
     Heap.contents a (hrun ops w1) = TodoManager.steps m
     ∧ Heap.abs (hrun ops w1) = run ops m).
Proof.
  intros w m a w1.
  destruct (sim_reachable prefix) as [Hwf Habs]. fold w m in Hwf, Habs.
  destruct (getSteps_copy w Hwf) as (Ea & Hlt & E1 & E2 & Hwf1 & Habs1 & Hc).
  fold a w1 in Ea, Hlt, E1, E2, Hwf1, Habs1, Hc.
  rewrite Habs in Habs1, Hc. unfold TodoManager.getSteps in Hc.
  destruct (sim_apply o w1 Hwf1) as [Hwf2 Habs2]. rewrite Habs1 in Habs2.
  assert (a < length (Heap.arrays w1)) as Ha.
  { unfold w1. simpl. rewrite length_app. simpl. lia. }
  assert (Heap.elements a (happly o w1) = Heap.elements a w1) as Eel.
  { apply elements_other_array; [done|lia]. }
  split_and!; [done|done| |].
  2:{ intros Hops. split.
      - rewrite <- Hc. apply earlier_list_kept; [done|lia| |done].
        destruct Hwf1 as (_ & _ & Hb). by rewrite E1, <- E2.
      - destruct (sim_run ops w1 Hwf1) as [_ ->]. by rewrite Habs1. }
  assert ((∃ id status, o = OpUpdateStatus id status)
          ∨ ∀ id status, o ≠ OpUpdateStatus id status) as [(id & st & ->)|Ho].
  { destruct o; eauto; right; intros; discriminate. }
  - assert (Heap.elements (Heap.steps (happly (OpUpdateStatus id st) w1))
              (happly (OpUpdateStatus id st) w1)
            = Heap.elements a (happly (OpUpdateStatus id st) w1)) as Esame.
    { rewrite Eel, E1, <- E2. unfold Heap.elements. simpl.
      unfold Heap.updateStatus. by destruct (JS.find _ _) as [[i r]|]. }
    transitivity (TodoManager.steps
                    (Heap.abs (happly (OpUpdateStatus id st) w1))).
    + unfold Heap.abs, Heap.contents. cbn [TodoManager.steps].
      by rewrite Esame.
    + by rewrite Habs2.
  - transitivity (Heap.contents a w1).
    2:{ destruct o; try done. by destruct (Ho id status). }
    unfold Heap.contents, Heap.deref. rewrite Eel.
    apply omap_lookup_ext.
    destruct Hwf1 as (_ & _ & Hb). rewrite E1, <- E2.
    eapply Forall_impl; [exact Hb|]. intros r Hr.
    exact (objects_kept o w1 r Ho Hr).
Qed.

Lemma earlier_list_after_operation_witness :
  let w := hrun [OpInitialize AB] Heap.new in
  let a := (Heap.getSteps w).1 in
  let w1 := (Heap.getSteps w).2 in
  Heap.contents a
    (hrun [OpDelete "1"; OpAdd "C" "c"; OpClear; OpInitialize AB] w1)
  = [TodoStep.mk "1" "A" "a" "not_made"; TodoStep.mk "2" "B" "b" "not_made"].
Proof.
  destruct (earlier_list_after_operation [OpInitialize AB]
              [OpDelete "1"; OpAdd "C" "c"; OpClear; OpInitialize AB]
              OpClear) as (_ & _ & _ & H).
  destruct (H eq_refl) as [Hc _]. exact Hc.
Defined.

(** After an [initialize] the store holds new objects: an [updateStatus]
    that follows it does not show in a list returned before it. *)
Example update_after_initialize_not_seen :
  let w := hrun [OpInitialize AB] Heap.new in
  let a := (Heap.getSteps w).1 in
  let w2 := hrun [OpInitialize AB; OpUpdateStatus "1" "made"]
              (Heap.getSteps w).2 in
  Heap.contents a w2
  = [TodoStep.mk "1" "A" "a" "not_made"; TodoStep.mk "2" "B" "b" "not_made"]
  ∧ TodoManager.steps (Heap.abs w2)
    = [TodoStep.mk "1" "A" "a" "made"; TodoStep.mk "2" "B" "b" "not_made"].
Proof. split; reflexivity. Qed.

End EarlierList.

(** ** The hook and the component *)

Section Screen.

Implicit Types (step : TodoStep) (C : Colors.t) (todos : list TodoItem).

Lemma or_not_empty (a b : string) : b ≠ "" → UseTodoList.or a b ≠ "".
Proof.
  intros Hb. unfold UseTodoList.or.
  by destruct (String.eqb_spec a "").
Qed.

Lemma or_left (a b : string) : a ≠ "" → UseTodoList.or a b = a.
Proof.
  intros Ha. unfold UseTodoList.or. by destruct (String.eqb_spec a "").
Qed.

(** X11.  Whatever a step holds, the item that the hook makes of it has
    one of the three statuses, a description that is not empty and an id
    that is not empty.  The status of the step is kept exactly when it is
    one of the three; any other string becomes [not_made].  An id that is
    not empty is kept. *)
Theorem formatTodo_normalizes step (index : nat) :
  let t := UseTodoList.formatTodo step index in
  TodoItem.status t ∈ ["not_made"; "in_progress"; "made"]
  ∧ (TodoItem.status t = TodoStep.status step
     ↔ TodoStep.status step ∈ ["not_made"; "in_progress"; "made"])
  ∧ (TodoItem.status t = TodoStep.status step ∨ TodoItem.status t = "not_made")
  ∧ TodoItem.description t ≠ ""
  ∧ TodoItem.id t ≠ ""
  ∧ TodoItem.id t
    = (if decide (TodoStep.id step = "")
       then "todo-" +:+ JS.toString (N.of_nat index)
       else TodoStep.id step).
Proof.
  intros t. unfold t, UseTodoList.formatTodo. simpl.
  rewrite !elem_of_cons, elem_of_nil. split_and!.
  - repeat case_match; tauto.
  - destruct (String.eqb_spec (TodoStep.status step) "made") as [->|H1].
    { split; [|done]. tauto. }
    destruct (String.eqb_spec (TodoStep.status step) "in_progress")
      as [->|H2].
    { split; [|done]. tauto. }
    split; [intros <-; tauto|]. intros [E|[E|[E|E%elem_of_nil]]]; [congruence..|done].
  - repeat case_match; try tauto.
    + left. symmetry. by apply String.eqb_eq.
    + left. symmetry. by apply String.eqb_eq.
  - by apply or_not_empty.
  - unfold UseTodoList.or.
    destruct (String.eqb_spec (TodoStep.id step) ""); done.
  - unfold UseTodoList.or.
    destruct (String.eqb_spec (TodoStep.id step) "") as [E|E].
    + by rewrite decide_True.
    + by rewrite decide_False.
Qed.

(** On a reachable store the hook never needs the ["todo-<index>"]
    fallback. *)
Lemma formatTodos_reachable (prefix : list Op) :
  let m := run prefix TodoManager.new in
  JS.map UseTodoList.formatTodo (TodoManager.steps m)
  = (λ step, UseTodoList.formatTodo step 0) <$> TodoManager.steps m
  ∧ TodoItem.id <$> JS.map UseTodoList.formatTodo (TodoManager.steps m)
    = held_ids m.
Proof.
  intros m.
  assert (∀ i step, TodoManager.steps m !! i = Some step →
            TodoStep.id step ≠ "") as Hid.
  { intros i step Hi. destruct (Inv_reachable prefix) as (_ & _ & Hb).
    fold m in Hb. rewrite Forall_forall in Hb.
    destruct (Hb (TodoStep.id step)) as (k & -> & _).
    - unfold held_ids. apply list_elem_of_fmap. exists step.
      split; [done|]. by eapply list_elem_of_lookup_2.
    - apply toString_nonempty. }
  assert (JS.map UseTodoList.formatTodo (TodoManager.steps m)
          = (λ step, UseTodoList.formatTodo step 0) <$> TodoManager.steps m)
    as E.
  { unfold JS.map.
    rewrite <- (imap_const (λ step, UseTodoList.formatTodo step 0)).
    apply imap_ext. intros i step Hi. simpl.
    unfold UseTodoList.formatTodo. f_equal.
    by rewrite !or_left by by eapply Hid. }
  split; [done|]. rewrite E. unfold held_ids.
  rewrite <- list_fmap_compose. apply list_fmap_ext. intros i step Hi.
  simpl. apply or_left. by eapply Hid.
Qed.

(** X12.  One run of [fetchTodos] never changes the store and always ends
    with [isLoading] false.  When the tool is registered and the store is
    one that operations reach from a new store, the list of the hook is
    replaced, whatever it was, by one item per step in store order, each
    carrying the id of its step, so the ids are pairwise distinct.  When
    no tool of that name is registered the list is kept as it was; when
    the registry throws, the list is emptied. *)
Theorem fetchTodos_follows_the_store
  (prefix : list Op) (st : UseTodoList.State) :
  let m := run prefix TodoManager.new in
  let r := UseTodoList.fetchTodos UseTodoList.HasTodoTool st m in
  r.2 = m
  ∧ UseTodoList.isLoading r.1 = false
  ∧ UseTodoList.todos r.1
    = (λ step, UseTodoList.formatTodo step 0) <$> TodoManager.steps m
  ∧ TodoItem.id <$> UseTodoList.todos r.1 = held_ids m
  ∧ NoDup (TodoItem.id <$> UseTodoList.todos r.1)
  ∧ UseTodoList.fetchTodos UseTodoList.NoTodoTool st m
    = (UseTodoList.mkState (UseTodoList.todos st) false, m)
  ∧ UseTodoList.fetchTodos UseTodoList.RegistryThrows st m
    = (UseTodoList.mkState [] false, m).
Proof.
  intros m r.
  destruct (formatTodos_reachable prefix) as [E Eids]. fold m in E, Eids.
  assert (r = (UseTodoList.mkState
                 (JS.map UseTodoList.formatTodo (TodoManager.steps m)) false,
               m)) as ->.
  { reflexivity. }
  simpl. split_and!; try done. rewrite Eids.
  apply (Inv_reachable prefix).
Qed.

(** X13.  The component and the text rendering agree on the glyph of
    every step: the glyph that [TodoListDisplay] shows for the item the
    hook makes of a step is its [not_made], [in_progress] or [made] glyph
    exactly when [getStepsForDisplay] uses its own glyph of that name for
    the step, also for a status that is none of the three. *)
Theorem component_and_rendering_agree step (index : nat) :
  let t := UseTodoList.formatTodo step index in
  (TodoListDisplay.getStatusIcon (TodoItem.status t)
     = TodoListDisplay.ICON_NOT_MADE
   ↔ TodoManager.getStatusIcon (TodoStep.status step)
     = TodoManager.ICON_NOT_MADE)
  ∧ (TodoListDisplay.getStatusIcon (TodoItem.status t)
       = TodoListDisplay.ICON_IN_PROGRESS
     ↔ TodoManager.getStatusIcon (TodoStep.status step)
       = TodoManager.ICON_IN_PROGRESS)
  ∧ (TodoListDisplay.getStatusIcon (TodoItem.status t)
       = TodoListDisplay.ICON_MADE
     ↔ TodoManager.getStatusIcon (TodoStep.status step)
       = TodoManager.ICON_MADE).
Proof.
  intros t. unfold t, UseTodoList.formatTodo. simpl.
  unfold TodoManager.getStatusIcon, TodoStatus.NOT_MADE,
    TodoStatus.IN_PROGRESS, TodoStatus.MADE.
  destruct (String.eqb_spec (TodoStep.status step) "made") as [->|H1].
  { by split_and!. }
  destruct (String.eqb_spec (TodoStep.status step) "in_progress") as [->|H2].
  { by split_and!. }
  by destruct (String.eqb (TodoStep.status step) "not_made"); split_and!.
Qed.

End Screen.

Section Component.

Implicit Types (C : Colors.t) (todos : list TodoItem) (width : option nat).

(** The rows are the images of the items, also when there is none. *)
Lemma rows_map C todos width :
  TodoListDisplay.rows (TodoListDisplay.TodoListDisplay C todos width)
  = JS.map (TodoListDisplay.row C (length todos)) todos.
Proof.
  unfold TodoListDisplay.TodoListDisplay. by destruct todos.
Qed.

Lemma imap_fmap_seq {A B} (f : nat → A → B) (g : B → option nat)
    (h : nat → option nat) (l : list A) :
  (∀ i x, l !! i = Some x → g (f i x) = h i) →
  g <$> imap f l = h <$> seq 0 (length l).
Proof.
  intros H. rewrite fmap_imap. rewrite <- (imap_seq_0 l h).
  apply imap_ext. intros i x Hi. simpl. by apply H.
Qed.

Lemma TodoListDisplay_rows_aux C todos width :
  let e := TodoListDisplay.TodoListDisplay C todos width in
  (e = None ↔ todos = [])
  ∧ TodoListDisplay.rowShows <$> TodoListDisplay.rows e
    = (λ t, Some (TodoListDisplay.getStatusIcon (TodoItem.status t),
                  TodoItem.description t,
                  String.eqb (TodoItem.status t) "made")) <$> todos.
Proof.
  intros e. unfold e. rewrite rows_map. split.
  - unfold TodoListDisplay.TodoListDisplay. by destruct todos.
  - unfold JS.map. rewrite fmap_imap.
    rewrite <- (imap_const (λ t, Some (_, _, _))).
    by apply imap_ext.
Qed.

(** X14.  [TodoListDisplay] renders nothing exactly when there is no item.
    Otherwise it renders one row per item, in order; a row shows the
    glyph of the item's status and the item's description, struck through
    exactly when the status is [made]; every row but the last has a
    bottom margin of 1 and the last has none; the width is the one given,
    or 80 when none is given. *)
Theorem TodoListDisplay_rows C todos width :
  let e := TodoListDisplay.TodoListDisplay C todos width in
  (e = None ↔ todos = [])
  ∧ length (TodoListDisplay.rows e) = length todos
  ∧ TodoListDisplay.rowShows <$> TodoListDisplay.rows e
    = (λ t, Some (TodoListDisplay.getStatusIcon (TodoItem.status t),
                  TodoItem.description t,
                  String.eqb (TodoItem.status t) "made")) <$> todos
  ∧ TodoListDisplay.rowMargin <$> TodoListDisplay.rows e
    = (λ i, Some (if decide (S i = length todos) then 0 else 1))
      <$> seq 0 (length todos)
  ∧ (todos ≠ [] →
     ∃ props children,
       e = Some (Ink.Box props children)
       ∧ Ink.width props = Some (default 80 width)
       ∧ length children = S (length todos)).
Proof.
  intros e. unfold e. rewrite rows_map. split_and!.
  - unfold TodoListDisplay.TodoListDisplay. by destruct todos.
  - unfold JS.map. apply length_imap.
  - unfold JS.map. rewrite fmap_imap.
    rewrite <- (imap_const (λ t, Some (_, _, _))).
    by apply imap_ext.
  - unfold JS.map. apply imap_fmap_seq. intros i t Hi. simpl.
    apply lookup_lt_Some in Hi. f_equal.
    destruct (Z.ltb_spec (Z.of_nat i) (Z.of_nat (length todos) - 1));
      case_decide; lia.
  - intros Hne. unfold TodoListDisplay.TodoListDisplay.
    destruct todos as [|t todos]; [done|]. simpl.
    eexists _, _. split_and!; [reflexivity|done|].
    simpl. unfold JS.map. by rewrite length_imap.
Qed.

(** X15.  From the store to the screen.  For a store that operations
    reach from a new store, take the list that [fetchTodos] leaves when
    the tool is registered and render it with [TodoListDisplay]: nothing
    is rendered exactly when the store is empty; there is one row per
    step, in store order, whose key is the id of the step, so the keys
    are pairwise distinct; and a row is struck through exactly when the
    status of its step is the string [made]. *)
Theorem screen_follows_the_store (prefix : list Op) C width :
  let m := run prefix TodoManager.new in
  let todos :=
    UseTodoList.todos
      (UseTodoList.fetchTodos UseTodoList.HasTodoTool UseTodoList.initial m).1
  in
  let e := TodoListDisplay.TodoListDisplay C todos width in
  (e = None ↔ TodoManager.steps m = [])
  ∧ TodoListDisplay.rowKeyOf <$> TodoListDisplay.rows e
    = (λ id, Some (inl id)) <$> held_ids m
  ∧ NoDup (TodoListDisplay.rowKeyOf <$> TodoListDisplay.rows e)
  ∧ TodoListDisplay.rowShows <$> TodoListDisplay.rows e
    = (λ step,
         Some (TodoListDisplay.getStatusIcon
                 (TodoItem.status (UseTodoList.formatTodo step 0)),
               TodoItem.description (UseTodoList.formatTodo step 0),
               String.eqb (TodoStep.status step) "made"))
      <$> TodoManager.steps m.
Proof.
  intros m todos e.
  destruct (formatTodos_reachable prefix) as [E Eids]. fold m in E, Eids.
  assert (todos = (λ step, UseTodoList.formatTodo step 0)
                    <$> TodoManager.steps m) as Etodos.
  { rewrite <- E. reflexivity. }
  assert (TodoItem.id <$> todos = held_ids m) as Eid.
  { rewrite Etodos, <- E. exact Eids. }
  assert (∀ i t, todos !! i = Some t → TodoItem.id t ≠ "") as Hne.
  { intros i t Hi. destruct (Inv_reachable prefix) as (_ & _ & Hb).
    fold m in Hb. rewrite Forall_forall in Hb.
    destruct (Hb (TodoItem.id t)) as (k & -> & _).
    - rewrite <- Eid. apply list_elem_of_fmap. exists t.
      split; [done|]. by eapply list_elem_of_lookup_2.
    - apply toString_nonempty. }
  assert (TodoListDisplay.rowKeyOf <$> TodoListDisplay.rows e
          = (λ id, Some (inl id)) <$> held_ids m) as Ekeys.
  { unfold e. rewrite rows_map, <- Eid. unfold JS.map.
    rewrite fmap_imap, <- list_fmap_compose.
    rewrite <- (imap_const ((λ id, Some (inl id)) ∘ TodoItem.id)).
    apply imap_ext. intros i t Hi. simpl. unfold TodoListDisplay.rowKey.
    destruct (String.eqb_spec (TodoItem.id t) "") as [E0|_]; [|done].
    by destruct (Hne i t Hi). }
  destruct (TodoListDisplay_rows_aux C todos width) as (Hnone & Hshows).
  fold e in Hnone, Hshows. split_and!.
  - rewrite Hnone, Etodos. split.
    + by intros ?%fmap_nil_inv.
    + by intros ->.
  - exact Ekeys.
  - rewrite Ekeys. apply NoDup_fmap_2; [|apply (Inv_reachable prefix)].
    intros x y [=]. done.
  - rewrite Hshows, Etodos, <- list_fmap_compose.
    apply list_fmap_ext. intros i step Hi. simpl. do 2 f_equal.
    unfold UseTodoList.formatTodo. simpl.
    destruct (String.eqb_spec (TodoStep.status step) "made"); [done|].
    by destruct (String.eqb (TodoStep.status step) "in_progress").
Qed.

End Component.

(** ** The declaration and the implementation *)

Section Declaration.

Implicit Types (p : Params.t) (m : TodoManager).

(** X16.  The actions that the tool declares are exactly those that
    [execute] implements: a request is answered with the
    "Unknown action: <action>" failure exactly when its action is not in
    the [enum] of the declaration, whatever its other fields and whatever
    the store holds. *)
Theorem declared_actions_are_the_implemented_ones p m :
  Params.action p ∈ TodoToolSchema.action_enum
  ↔ (TodoTool.execute p m).1
    ≠ TodoTool.failed ("Unknown action: " +:+ Params.action p).
Proof.
  unfold TodoToolSchema.action_enum.
  rewrite !elem_of_cons, elem_of_nil.
  unfold TodoTool.execute, TodoTool.execute_try.
  destruct (String.eqb_spec (Params.action p) "initialize") as [->|H1].
  { split; [|tauto]. intros _. by destruct (Params.steps p). }
  destruct (String.eqb_spec (Params.action p) "add") as [->|H2].
  { split; [|tauto]. intros _. by destruct (negb _ || negb _). }
  destruct (String.eqb_spec (Params.action p) "delete") as [->|H3].
  { split; [|tauto]. intros _. destruct (negb _); [done|].
    by destruct (TodoManager.deleteStep _ m) as [[|] m']. }
  destruct (String.eqb_spec (Params.action p) "update_status") as [->|H4].
  { split; [|tauto]. intros _. destruct (negb _ || negb _); [done|].
    by destruct (TodoManager.updateStatus _ _ m) as [[|] m']. }
  destruct (String.eqb_spec (Params.action p) "get_steps") as [->|H5].
  { split; [|tauto]. by intros _. }
  destruct (String.eqb_spec (Params.action p) "clear") as [->|H6].
  { split; [|tauto]. by intros _. }
  simpl. split; [tauto|]. intros H. by destruct H.
Qed.

End Declaration.
